(** * Vi editing widgets of the readline library

    A shallow embedding of the vi widgets of the Go package [readline]
    (the file that registers them with [initViWidgets]) and the properties
    of its specification that concern them, followed by the groups of
    completion candidates of its package [completion] and properties of
    their layout and of the selector that moves over them.

    Conventions of the embedding.
    - The receiver [rl *Instance] is a record that every widget takes and
      returns: the mutation of a field is a functional update.
    - Go's [int] is [Z]. The only arithmetic the widgets perform on a
      position is one step up or down, a sum with a length, [min] and
      [max], all far from the word size for an in-memory buffer.
    - A rune is a [Z]. A Go [string] is represented by the runes it decodes
      to; the conversion [string(rs)] of a rune slice replaces every rune
      that is not a Unicode scalar value by U+FFFD, as Go does.
    - An index or slice expression out of range panics: widgets that
      contain one return an [outcome]. The capacity of a slice is not
      modelled; a slice bound is checked against the length.
    - The key source is external: a widget that reads one argument key
      takes the answer of that read as an argument. *)

From Stdlib Require Import ZArith Lia String Ascii.
From stdpp Require Import base list gmap strings.

Local Open Scope Z_scope.

(** ** Runes and Go strings *)

Abbreviation rune := Z (only parsing).
Abbreviation gostring := (list Z) (only parsing).

Definition RuneError : rune := 65533.

(** A Unicode scalar value: a code point outside the surrogate range. *)
Definition validRune (r : rune) : bool :=
  ((0 <=? r) && (r <? 55296)) || ((57344 <=? r) && (r <=? 1114111)).

(** [string(rs)]: each rune is encoded, an invalid one as U+FFFD. *)
Definition string_of_runes (rs : list rune) : gostring :=
  (fun r => if validRune r then r else RuneError) <$> rs.

(** [[]rune(s)]: the runes the string decodes to. *)
Definition runes_of_string (s : gostring) : list rune := s.

Definition len (l : list rune) : Z := Z.of_nat (length l).

(** ** Panics and the outcome of a widget *)

Inductive panic : Type :=
| IndexOutOfRange
| SliceBoundsOutOfRange.

Inductive outcome (A : Type) : Type :=
| Done (a : A)
| Panicked (why : panic).
Arguments Done {A} a.
Arguments Panicked {A} why.

#[global] Instance outcome_ret : MRet outcome := fun A a => Done a.
#[global] Instance outcome_bind : MBind outcome := fun A B f m =>
  match m with
  | Done a => f a
  | Panicked why => Panicked why
  end.

(** [l[i]] *)
Definition index (l : list rune) (i : Z) : outcome rune :=
  if 0 <=? i then
    match l !! Z.to_nat i with
    | Some r => Done r
    | None => Panicked IndexOutOfRange
    end
  else Panicked IndexOutOfRange.

(** [l[i] = v] *)
Definition assign (l : list rune) (i : Z) (v : rune) : outcome (list rune) :=
  if (0 <=? i) && (i <? len l) then Done (<[Z.to_nat i := v]> l)
  else Panicked IndexOutOfRange.

(** [l[lo:hi]] *)
Definition slice (l : list rune) (lo hi : Z) : outcome (list rune) :=
  if (0 <=? lo) && (lo <=? hi) && (hi <=? len l)
  then Done (take (Z.to_nat (hi - lo)) (drop (Z.to_nat lo) l))
  else Panicked SliceBoundsOutOfRange.

(** [l[lo:]] *)
Definition slice_from (l : list rune) (lo : Z) : outcome (list rune) :=
  slice l lo (len l).

(** [l[:hi]] *)
Definition slice_to (l : list rune) (hi : Z) : outcome (list rune) :=
  slice l 0 hi.

(** ** The editing session *)

(** The main keymap mode, [rl.main]: insert or command. *)
Inductive mainMode : Type := viins | vicmd.

(** The local keymap mode, [rl.local]: none (the empty string of the
    source), operator-pending or visual. The visual-line variant is the
    flag [visualLine] on top of [visual]. *)
Inductive localMode : Type := nolocal | viopp | visual.

#[global] Instance mainMode_eq_dec : EqDecision mainMode.
Proof. solve_decision. Defined.
#[global] Instance localMode_eq_dec : EqDecision localMode.
Proof. solve_decision. Defined.

(** Modelled from the spec: the content of a register, '(rune sequence,
    line-wise|character-wise tag)'. *)
Inductive regKind : Type := charWise | lineWise.

Record register : Type := mkRegister {
  regText : list rune;
  regKindOf : regKind;
}.

(** Modelled from the spec: the register store, [rl.registers]. A named
    register may be armed ([onRegister], the one field the widgets read,
    with its key) as the target of the next save; there is a default
    register, a map from keys to the named registers and the numbered
    history of saves. *)
Record registerStore : Type := mkRegisters {
  onRegister : bool;
  currentRegister : rune;
  unnamed : register;
  named : gmap Z register;
  numbered : list register;
}.

(** The fields of [Instance] that the vi widgets read and write: the
    buffer [line], the cursor [pos], the mark (-1 when unset), the two
    modes, the flags, the iteration string and the registers.
    [pendingActions] holds the pending operators, most recent first, each
    with the local mode that operator-pending mode replaced. *)
Record rlInstance : Type := mkInstance {
  line : list rune;
  pos : Z;
  mark : Z;
  main : mainMode;
  local : localMode;
  activeRegion : bool;
  visualLine : bool;
  viIteration : string;
  viUndoSkipAppend : bool;
  registers : registerStore;
  pendingActions : list (string * localMode);
}.

Definition set_line (v : list rune) (rl : rlInstance) : rlInstance :=
  mkInstance v (pos rl) (mark rl) (main rl) (local rl) (activeRegion rl)
    (visualLine rl) (viIteration rl) (viUndoSkipAppend rl) (registers rl)
    (pendingActions rl).
Definition set_pos (v : Z) (rl : rlInstance) : rlInstance :=
  mkInstance (line rl) v (mark rl) (main rl) (local rl) (activeRegion rl)
    (visualLine rl) (viIteration rl) (viUndoSkipAppend rl) (registers rl)
    (pendingActions rl).
Definition set_mark (v : Z) (rl : rlInstance) : rlInstance :=
  mkInstance (line rl) (pos rl) v (main rl) (local rl) (activeRegion rl)
    (visualLine rl) (viIteration rl) (viUndoSkipAppend rl) (registers rl)
    (pendingActions rl).
Definition set_main (v : mainMode) (rl : rlInstance) : rlInstance :=
  mkInstance (line rl) (pos rl) (mark rl) v (local rl) (activeRegion rl)
    (visualLine rl) (viIteration rl) (viUndoSkipAppend rl) (registers rl)
    (pendingActions rl).
Definition set_local (v : localMode) (rl : rlInstance) : rlInstance :=
  mkInstance (line rl) (pos rl) (mark rl) (main rl) v (activeRegion rl)
    (visualLine rl) (viIteration rl) (viUndoSkipAppend rl) (registers rl)
    (pendingActions rl).
Definition set_activeRegion (v : bool) (rl : rlInstance) : rlInstance :=
  mkInstance (line rl) (pos rl) (mark rl) (main rl) (local rl) v
    (visualLine rl) (viIteration rl) (viUndoSkipAppend rl) (registers rl)
    (pendingActions rl).
Definition set_visualLine (v : bool) (rl : rlInstance) : rlInstance :=
  mkInstance (line rl) (pos rl) (mark rl) (main rl) (local rl) (activeRegion rl)
    v (viIteration rl) (viUndoSkipAppend rl) (registers rl)
    (pendingActions rl).
Definition set_viIteration (v : string) (rl : rlInstance) : rlInstance :=
  mkInstance (line rl) (pos rl) (mark rl) (main rl) (local rl) (activeRegion rl)
    (visualLine rl) v (viUndoSkipAppend rl) (registers rl)
    (pendingActions rl).
Definition set_viUndoSkipAppend (v : bool) (rl : rlInstance) : rlInstance :=
  mkInstance (line rl) (pos rl) (mark rl) (main rl) (local rl) (activeRegion rl)
    (visualLine rl) (viIteration rl) v (registers rl)
    (pendingActions rl).
Definition set_registers (v : registerStore) (rl : rlInstance) : rlInstance :=
  mkInstance (line rl) (pos rl) (mark rl) (main rl) (local rl) (activeRegion rl)
    (visualLine rl) (viIteration rl) (viUndoSkipAppend rl) v
    (pendingActions rl).
Definition set_pendingActions (v : list (string * localMode)) (rl : rlInstance)
  : rlInstance :=
  mkInstance (line rl) (pos rl) (mark rl) (main rl) (local rl) (activeRegion rl)
    (visualLine rl) (viIteration rl) (viUndoSkipAppend rl) (registers rl) v.

(** ** Collaborators of the widgets

    The widgets call helpers of the package that are defined in other
    files. Those whose behaviour the specification describes are modelled
    from it below; the others are parameters of the section that holds the
    widgets. *)

(** [l[b:e)] for helpers that the specification describes without an error
    case: the part of the buffer inside the range. *)
Definition sliceZ (b e : Z) (l : list rune) : list rune :=
  drop (Z.to_nat b) (take (Z.to_nat e) l).

(** The buffer without the range [[b,e)]. *)
Definition removeRange (b e : Z) (l : list rune) : list rune :=
  take (Z.to_nat b) l ++ drop (Z.to_nat e) l.

(** Modelled from the spec: [updateCursor], the render/cursor hook, 'invoked
    after state changes that must be reflected on screen; out of scope for
    content'. It leaves the session as it is. *)
Definition updateCursor (rl : rlInstance) : rlInstance := rl.

(** Modelled from the spec: [refreshVimStatus], a call of the render hook at
    a mode entry ('this core only guarantees it calls the hook at the right
    points'); no effect on the session. *)
Definition refreshVimStatus (rl : rlInstance) : rlInstance := rl.

(** Modelled from the spec: [resetHelpers], which clears the hint and
    completion display, both 'external collaborators' outside the editing
    session; no effect on the session. *)
Definition resetHelpers (rl : rlInstance) : rlInstance := rl.

(** Modelled from the spec: [updateHelpers], which redraws that display
    after an edit (the render hook at 'buffer edit'); no effect on the
    session. *)
Definition updateHelpers (rl : rlInstance) : rlInstance := rl.

(** Modelled from the spec: [addIteration], the accumulator's [addDigit(d)]:
    it 'appends a digit to the iteration string'. Called with the empty
    string it 'resets [the] iteration accumulator', which is what 4.1 says of
    [enterInsert] and [enterCommand], the widgets that call it so. *)
Definition addIteration (i : string) (rl : rlInstance) : rlInstance :=
  if decide (i = "") then set_viIteration "" rl
  else set_viIteration (viIteration rl +:+ i) rl.

(** The value of a string of decimal digits, [None] on any other character. *)
Fixpoint parseDigits (s : string) (acc : Z) : option Z :=
  match s with
  | EmptyString => Some acc
  | String c s' =>
      let d := Z.of_nat (nat_of_ascii c) - 48 in
      if (0 <=? d) && (d <=? 9) then parseDigits s' (10 * acc + d) else None
  end.

(** Modelled from the spec: [getViIterations], the accumulator's
    [iterations()], which 'parses the accumulated string to a positive
    integer; absence (empty string) yields the default of 1'. The string is
    'consumed and reset by the command that uses it'. *)
Definition getViIterations (rl : rlInstance) : Z * rlInstance :=
  let n := match parseDigits (viIteration rl) 0 with
           | Some n => if 1 <=? n then n else 1
           | None => 1
           end in
  (n, set_viIteration "" rl).

(** Modelled from the spec: the register store's [save(content, lineWise)],
    which 'writes either to the armed register or, absent one, to the default
    register, and always also updates a small ring of numbered "yank history"
    registers'. A register is armed 'as the target for the next yank/delete',
    so a save disarms it. The size of the ring is not given: the history is
    kept most recent first. *)
Definition saveRegister (content : list rune) (k : regKind)
    (rs : registerStore) : registerStore :=
  let r := mkRegister content k in
  if onRegister rs
  then mkRegisters false (currentRegister rs) (unnamed rs)
         (<[currentRegister rs := r]> (named rs)) (r :: numbered rs)
  else mkRegisters false (currentRegister rs) r (named rs) (r :: numbered rs).


(** Modelled from the spec: [getSelection], which 'returns (begin, end,
    cursorRestorePos) where begin = min(mark,pos), end = max(mark,pos)+1 (end
    exclusive)' and cursorRestorePos is 'typically begin'; the 'visual-line
    variant operates identically but widens begin/end to full line
    boundaries before use'. The buffer of this editor is one line (it is the
    field [line]; the widgets take its bounds 0 and [len] for the bounds of
    the line), so the widened range is the whole buffer. *)
Definition getSelection (rl : rlInstance) : Z * Z * Z :=
  if visualLine rl then (0, len (line rl), 0)
  else (Z.min (mark rl) (pos rl), Z.max (mark rl) (pos rl) + 1,
        Z.min (mark rl) (pos rl)).

(** Modelled from the spec: [resetSelection], which 'clears mark to unset
    and the active-region flag'. *)
Definition resetSelection (rl : rlInstance) : rlInstance :=
  set_activeRegion false (set_mark (-1) rl).

(** Modelled from the spec: the tag of the text that an operator saves:
    'tagged character-wise', except that a 'whole-line yank [...] copies the
    full line and tags it line-wise' and that after 'deleting the whole line
    via the line-wise delete operator [...] the default register's content
    equals the pre-delete buffer content tagged line-wise'. The whole line is
    the range of the visual-line variant. *)
Definition selectionKind (rl : rlInstance) : regKind :=
  if visualLine rl then lineWise else charWise.


(** Modelled from the spec: [deleteSelection], the effect of the delete
    operator on the resolved range: it 'removes [b,e) from Buffer; cursor
    becomes b, clamped to len-1 if now past end' and 'copies removed text
    into register before removal', with the tag [selectionKind]. The cursor
    never goes below 0, the lower bound of the data model. *)
Definition deleteSelection (rl : rlInstance) : rlInstance :=
  let '(bpos, epos, _) := getSelection rl in
  let kind := selectionKind rl in
  let rl := set_registers
      (saveRegister (sliceZ bpos epos (line rl)) kind (registers rl)) rl in
  let rl := set_line (removeRange bpos epos (line rl)) rl in
  let last := len (line rl) - 1 in
  set_pos (Z.max 0 (if last <? bpos then last else bpos)) rl.

(** Modelled from the spec: [enterVioppMode], the mode manager's
    [enterOperatorPending(pendingOpName)]: operator-pending is 'a distinct
    local mode', and the manager 'must remember which operator is pending'.
    Since on exit the 'mode reverts to whatever it was before entry', the
    entry is recorded together with the local mode it replaces. *)
Definition enterVioppMode (widget : string) (rl : rlInstance) : rlInstance :=
  set_local viopp
    (set_pendingActions ((widget, local rl) :: pendingActions rl) rl).

(** Modelled from the spec: [exitVioppMode], the mode manager's
    [exitOperatorPending()]: 'operator-pending mode is exited, no buffer
    mutation occurs, mode reverts to whatever it was before entry'. *)
Definition exitVioppMode (rl : rlInstance) : rlInstance :=
  match pendingActions rl with
  | (_, before) :: rest => set_local before (set_pendingActions rest rl)
  | [] => set_local nolocal rl
  end.


(** Modelled from the spec: the exit of visual mode, which goes 'back to
    command mode without altering the buffer'; on a 'transition into
    command' the 'Mode, Mark, Active-region flag [...] are reset to a
    neutral state', so that the exit 'leaves mark unset and the
    active-region flag false'. *)
Definition exitVisualMode (rl : rlInstance) : rlInstance :=
  set_visualLine false
    (set_activeRegion false
       (set_mark (-1) (set_local nolocal (set_main vicmd rl)))).

(** Modelled from the spec: [enterVisualMode], the mode manager's
    [enterVisual]: 'entering the same region-mode you are already in
    collapses the selection (implementation must special-case "already
    active and identical variant requested" by exiting instead of
    re-entering - an observable toggle behavior)', that is, it 'exits visual
    mode back to command mode'; 'toggling between the two is an actual mode
    change'. Any other entry makes visual the local mode, in the
    character-wise variant, and touches nothing else. The bullet of the spec
    opens with 'idempotent re-entry is a no-op'; its special case and the
    testable property of the toggle both say exit, which is modelled. *)
Definition enterVisualMode (rl : rlInstance) : rlInstance :=
  if bool_decide (local rl = visual) && negb (visualLine rl)
  then exitVisualMode rl
  else set_visualLine false (set_local visual rl).

(** Modelled from the spec: [enterVisualLineMode], the mode manager's
    [enterVisualLine], the line-wise variant of [enterVisualMode] under the
    same contract. *)
Definition enterVisualLineMode (rl : rlInstance) : rlInstance :=
  if bool_decide (local rl = visual) && visualLine rl
  then exitVisualMode rl
  else set_visualLine true (set_local visual rl).

(** Modelled from the spec: [beginningOfLine], 'the beginning-of-line
    motion': the cursor goes to column 0 of the line, and as 'pure cursor
    motion' it is flagged undo-skip. *)
Definition beginningOfLine (rl : rlInstance) : rlInstance :=
  set_pos 0 (set_viUndoSkipAppend true rl).

(** Modelled from the spec: [moveCursorByAdjust], the use of a jump's
    'signed delta to apply to pos': 'apply delta, clamp'. The bounds are
    those of the data model: [0 <= pos <= len(Buffer)], and 'in
    command/visual modes the effective upper bound for motion (not
    insertion) is len(Buffer)-1 when the buffer is non-empty'. *)
Definition moveCursorByAdjust (adjust : Z) (rl : rlInstance) : rlInstance :=
  let upper := if bool_decide (main rl = vicmd) && (0 <? len (line rl))
               then len (line rl) - 1 else len (line rl) in
  set_pos (Z.max 0 (Z.min upper (pos rl + adjust))) rl.

(** Modelled from the spec: [isBracket], whether the rune is 'one of
    (){}[]'. *)
Definition isBracket (r : rune) : bool :=
  bool_decide (r ∈ [40; 41; 123; 125; 91; 93]).

(** The two tokenisers the word motions are called with. *)
Inductive tokeniser : Type := tokeniseLine | tokeniseSplitSpaces.

(** [key[len(key)-1]], the last byte of the key: for a rune below 128 the
    rune itself, for any other the last byte of its UTF-8 encoding. *)
Definition lastByte (key : gostring) : outcome Z :=
  match last key with
  | Some r => Done (if r <? 128 then r else 128 + r mod 64)
  | None => Panicked IndexOutOfRange
  end.

(** Modelled from the spec: [undoAppendHistory], a call of the undo
    recorder ('Undo/redo storage itself is external'); no effect on the
    session. *)
Definition undoAppendHistory (rl : rlInstance) : rlInstance := rl.

(** Modelled from the spec: [clearHelpers], which erases the hint and
    completion display, 'external collaborators' outside the editing
    session; no effect on the session. *)
Definition clearHelpers (rl : rlInstance) : rlInstance := rl.

(** [keys[0]], the first byte of a key: for a rune below 128 the rune
    itself, for any other the leading byte of its UTF-8 encoding. *)
Definition firstByte (keys : gostring) : outcome Z :=
  match keys with
  | [] => Panicked IndexOutOfRange
  | r :: _ =>
      Done (if r <? 128 then r
            else if r <? 2048 then 192 + r / 64
            else if r <? 65536 then 224 + r / 4096
            else 240 + r / 262144)
  end.

(** * Completion groups

    The groups of completion candidates of the package [completion]: how
    the candidates of a tag are split into groups, laid out in rows and
    columns, and how the selector moves over the cells.

    The width of the terminal ([term.GetWidth()]), the rune count of a
    string ([utf8.RuneCountInString]) and the helpers of the package that
    are defined in other files ([stringInSlice], [getColumnPad], [sum],
    the escape sequences of the package [color]) are arguments of the
    functions that use them. *)

(** The run-time panics of this code: an index out of range, an integer
    division by zero, a negative length given to [make]. *)
Inductive fault : Type :=
| OutOfRange
| DivideByZero
| LenOutOfRange.

Inductive attempt (A : Type) : Type :=
| Returned (a : A)
| Failed (why : fault).
Arguments Returned {A} a.
Arguments Failed {A} why.

#[global] Instance attempt_ret : MRet attempt := fun A a => Returned a.
#[global] Instance attempt_bind : MBind attempt := fun A B f m =>
  match m with
  | Returned a => f a
  | Failed why => Failed why
  end.

(** [len(l)] *)
Definition lenOf {A} (l : list A) : Z := Z.of_nat (length l).

(** [l[i]] *)
Definition at_ {A} (l : list A) (i : Z) : attempt A :=
  if 0 <=? i then
    match l !! Z.to_nat i with
    | Some a => Returned a
    | None => Failed OutOfRange
    end
  else Failed OutOfRange.

(** [l[i] = v] *)
Definition store {A} (l : list A) (i : Z) (v : A) : attempt (list A) :=
  if (0 <=? i) && (i <? lenOf l) then Returned (<[Z.to_nat i := v]> l)
  else Failed OutOfRange.

(** [a / b] on Go's [int]: the quotient is truncated toward zero. *)
Definition quo (a b : Z) : attempt Z :=
  if b =? 0 then Failed DivideByZero else Returned (Z.quot a b).

(** [for _, a := range l { body }], from the state [s]. *)
Fixpoint forEach {A S} (body : S -> A -> attempt S) (l : list A) (s : S)
  : attempt S :=
  match l with
  | [] => Returned s
  | a :: l' => s ← body s a; forEach body l' s
  end.

(** The fields of [Candidate], declared in another file, that this file
    reads and writes. *)
Record Candidate : Type := mkCandidate {
  Value : string;
  Display : string;
  Description : string;
}.

(** The struct [group], without the suffix matcher [noSpace] and the
    fields that only the writers of escape sequences use. The field
    [list] of the source is [list_]. *)
Record group : Type := mkGroup {
  tag : string;
  rows : list (list Candidate);
  columnsWidth : list Z;
  list_ : bool;
  aliased : bool;
  preserveEscapes : bool;
  maxLength : Z;
  tcMaxLength : Z;
  maxCellLength : Z;
  posX : Z;
  posY : Z;
  maxX : Z;
  maxY : Z;
}.

Definition set_rows (v : list (list Candidate)) (g : group) : group :=
  mkGroup (tag g) v (columnsWidth g) (list_ g) (aliased g)
    (preserveEscapes g) (maxLength g) (tcMaxLength g) (maxCellLength g)
    (posX g) (posY g) (maxX g) (maxY g).
Definition set_columnsWidth (v : list Z) (g : group) : group :=
  mkGroup (tag g) (rows g) v (list_ g) (aliased g)
    (preserveEscapes g) (maxLength g) (tcMaxLength g) (maxCellLength g)
    (posX g) (posY g) (maxX g) (maxY g).
Definition set_tcMaxLength (v : Z) (g : group) : group :=
  mkGroup (tag g) (rows g) (columnsWidth g) (list_ g) (aliased g)
    (preserveEscapes g) (maxLength g) v (maxCellLength g)
    (posX g) (posY g) (maxX g) (maxY g).
Definition set_maxCellLength (v : Z) (g : group) : group :=
  mkGroup (tag g) (rows g) (columnsWidth g) (list_ g) (aliased g)
    (preserveEscapes g) (maxLength g) (tcMaxLength g) v
    (posX g) (posY g) (maxX g) (maxY g).
Definition set_posX (v : Z) (g : group) : group :=
  mkGroup (tag g) (rows g) (columnsWidth g) (list_ g) (aliased g)
    (preserveEscapes g) (maxLength g) (tcMaxLength g) (maxCellLength g)
    v (posY g) (maxX g) (maxY g).
Definition set_posY (v : Z) (g : group) : group :=
  mkGroup (tag g) (rows g) (columnsWidth g) (list_ g) (aliased g)
    (preserveEscapes g) (maxLength g) (tcMaxLength g) (maxCellLength g)
    (posX g) v (maxX g) (maxY g).
Definition set_maxX (v : Z) (g : group) : group :=
  mkGroup (tag g) (rows g) (columnsWidth g) (list_ g) (aliased g)
    (preserveEscapes g) (maxLength g) (tcMaxLength g) (maxCellLength g)
    (posX g) (posY g) v (maxY g).
Definition set_maxY (v : Z) (g : group) : group :=
  mkGroup (tag g) (rows g) (columnsWidth g) (list_ g) (aliased g)
    (preserveEscapes g) (maxLength g) (tcMaxLength g) (maxCellLength g)
    (posX g) (posY g) (maxX g) v.

(** ** Grouping the values *)

(** The string of two double quotes, one of the two empty quotations
    that [groupValues] does not take for a prefix. *)
Definition emptyDoubleQuotes : string :=
  String "034"%char (String "034"%char EmptyString).

(** The state of the loop of [groupValues]: the descriptions seen, the
    two results under construction, the flag, and the messages of
    [comps.Messages]. *)
Definition grouping : Type :=
  list string * list Candidate * list Candidate * bool * list string.

(** One round of [for _, val := range values]. *)
Definition groupValues_round (FgRed : string)
    (stringInSlice : string -> list string -> bool) (prefix : string)
    (st : grouping) (val : Candidate) : grouping :=
  let '(descriptions, vals, noDescVals, aliased, messages) := st in
  (* Ensure all values have a display string. *)
  let val := if bool_decide (Display val = ""%string)
             then mkCandidate (Value val) (Value val) (Description val)
             else val in
  (* Currently this is because errors are passed as completions. *)
  if String.prefix (prefix +:+ "ERR") (Value val)
     && bool_decide (Value val = prefix +:+ "_")
  then (descriptions, vals, noDescVals, aliased,
        messages ++ [FgRed +:+ Display val +:+ Description val])
  (* Grid completions *)
  else if bool_decide (Description val = ""%string)
  then (descriptions, vals, noDescVals ++ [val], aliased, messages)
  (* List/map completions. *)
  else
    let aliased := if stringInSlice (Description val) descriptions
                   then true else aliased in
    (descriptions ++ [Description val], vals ++ [val], noDescVals, aliased,
     messages).

(** [groupValues]: [ePrefix] is [e.prefix], [messages] the messages of
    [comps] at the call; the result holds them after it. *)
Definition groupValues (FgRed : string)
    (stringInSlice : string -> list string -> bool) (ePrefix : string)
    (messages : list string) (values : list Candidate)
  : list Candidate * list Candidate * bool * list string :=
  let prefix :=
    if negb (bool_decide (ePrefix = emptyDoubleQuotes))
       && negb (bool_decide (ePrefix = "''"%string))
    then ePrefix else ""%string in
  let '(_, vals, noDescVals, aliased, messages) :=
    fold_left (groupValues_round FgRed stringInSlice prefix) values
      ([], [], [], false, messages) in
  (* if no candidates have a description, swap *)
  if lenOf vals =? 0 then (noDescVals, [], aliased, messages)
  else (vals, noDescVals, aliased, messages).

(** ** Justifying the groups *)

(** The first loop of [justifyGroups], on the group at index [i] of
    [e.groups]: [commandGroups] holds pointers to groups of [e.groups],
    here their indices. *)
Definition justifyGroups_scan (Pad : gmap string bool)
    (st : list nat * Z) (ig : nat * group) : list nat * Z :=
  let '(commandGroups, maxCellLength) := st in
  let '(i, g) := ig in
  (* Skip groups that are not to be justified *)
  if negb (bool_decide (is_Some (Pad !! tag g)))
     && negb (bool_decide (is_Some (Pad !! "*"%string)))
  then st
  (* Skip groups that are aliased or have more than one column *)
  else if aliased g || (1 <? lenOf (columnsWidth g)) then st
  else (commandGroups ++ [i],
        if maxCellLength <? tcMaxLength g then tcMaxLength g
        else maxCellLength).

Definition justifyGroups (Pad : gmap string bool) (groups : list group)
  : list group :=
  let '(commandGroups, maxCellLength) :=
    fold_left (justifyGroups_scan Pad) (imap pair groups) ([], 0) in
  fold_left (fun groups i => alter (set_tcMaxLength maxCellLength) i groups)
    commandGroups groups.

(** ** Laying out a group *)

Definition checkDisplays (termWidth : Z) (RuneCountInString : string -> Z)
    (vals : list Candidate) (g : group) : attempt group :=
  if aliased g then Returned g
  else
    g ← (if lenOf vals =? 0
         then cw ← store (columnsWidth g) 0 (termWidth - 1);
              Returned (set_columnsWidth cw g)
         else Returned g);
    (* Otherwise update the size of the longest candidate *)
    forEach
      (fun g val =>
         let valLen := RuneCountInString (Display val) in
         first ← at_ (columnsWidth g) 0;
         if first <? valLen
         then cw ← store (columnsWidth g) 0 valLen;
              Returned (set_columnsWidth cw g)
         else Returned g)
      vals g.

(** [configWidth] is the setting completion-display-width. *)
Definition setMaxCellLength (termWidth configWidth : Z) (g : group)
  : Z * group :=
  let compDisplayWidth := configWidth in
  let compDisplayWidth :=
    if termWidth <? compDisplayWidth then -1 else compDisplayWidth in
  if (0 <? compDisplayWidth) && (compDisplayWidth <? termWidth)
  then
    if maxCellLength g <? compDisplayWidth
    then (compDisplayWidth, set_maxCellLength compDisplayWidth g)
    else (compDisplayWidth, set_maxCellLength termWidth g)
  else (compDisplayWidth, g).

Definition setColumnsWidth (termWidth : Z) (vals : list Candidate)
    (compDisplayWidth : Z) (g : group) : attempt group :=
  x ← quo termWidth (maxCellLength g);
  let g := set_maxX x g in
  let g := if maxX g <? 1 then set_maxX 1 g else g in
  let g := if lenOf vals <? maxX g then set_maxX (lenOf vals) g else g in
  let g := if list_ g || (compDisplayWidth =? 0) then set_maxX 1 g else g in
  let g := if (compDisplayWidth <? maxX g) && (0 <? compDisplayWidth)
           then set_maxX compDisplayWidth g else g in
  (* We also have the width for each column *)
  if maxX g <? 0 then Failed LenOutOfRange
  else
    Returned
      (set_columnsWidth (replicate (Z.to_nat (maxX g)) (maxCellLength g)) g).

Definition canFitInRow (termWidth : Z) (g : group) : attempt bool :=
  if lenOf (rows g) =? 0 then Returned false
  else
    q ← quo termWidth (maxCellLength g);
    last ← at_ (rows g) (lenOf (rows g) - 1);
    if q - 1 <? lenOf last then Returned false else Returned true.

(** [for i, row := range g.rows]: the index, counted from [i], of the
    first row whose first candidate has the description of [val]. *)
Fixpoint aliasRow (rows : list (list Candidate)) (i : Z) (val : Candidate)
  : attempt (option Z) :=
  match rows with
  | [] => Returned None
  | row :: rows' =>
      first ← at_ row 0;
      if bool_decide (Description first = Description val)
      then Returned (Some i)
      else aliasRow rows' (i + 1) val
  end.

(** One round of [for _, val := range vals] in [makeMatrix]. *)
Definition makeMatrix_round (termWidth : Z)
    (RuneCountInString : string -> Z)
    (getColumnPad : list Z -> Z -> Z -> list Z)
    (g : group) (val : Candidate) : attempt group :=
  let valLen := RuneCountInString (Display val) in
  (* If we have an alias, we must get the right column
     and the right padding for this column. *)
  found ← (if aliased g then aliasRow (rows g) 0 val else Returned None);
  match found with
  | Some i =>
      row ← at_ (rows g) i;
      rows' ← store (rows g) i (row ++ [val]);
      let g := set_rows rows' g in
      Returned
        (set_columnsWidth
           (getColumnPad (columnsWidth g) valLen (lenOf (row ++ [val]))) g)
  | None =>
      (* Else, either add it to the current row if there is still room
         on it for this candidate, or add a new one. *)
      fits ← (if negb (aliased g) then canFitInRow termWidth g
              else Returned false);
      if fits && negb (list_ g) then
        last ← at_ (rows g) (lenOf (rows g) - 1);
        rows' ← store (rows g) (lenOf (rows g) - 1) (last ++ [val]);
        Returned (set_rows rows' g)
      else
        (* Else create a new row, and update the row pad. *)
        let g := set_rows (rows g ++ [[val]]) g in
        first ← at_ (columnsWidth g) 0;
        if first <? valLen + 1
        then cw ← store (columnsWidth g) 0 (valLen + 1);
             Returned (set_columnsWidth cw g)
        else Returned g
  end.

Definition makeMatrix (termWidth : Z) (RuneCountInString : string -> Z)
    (getColumnPad : list Z -> Z -> Z -> list Z) (sum : list Z -> Z)
    (vals : list Candidate) (g : group) : attempt group :=
  g ← forEach (makeMatrix_round termWidth RuneCountInString getColumnPad)
        vals g;
  let g := if aliased g
           then set_tcMaxLength
                  (sum (columnsWidth g) + lenOf (columnsWidth g) + 1)
                  (set_maxX (lenOf (columnsWidth g)) g)
           else g in
  let g := set_maxY (lenOf (rows g)) g in
  Returned (if (maxLength g <? maxY g) && negb (maxLength g =? 0)
            then set_maxY (maxLength g) g else g).

(** ** Selecting a cell *)

Definition firstCell (g : group) : group :=
  set_posY 0 (set_posX 0 g).

(** The loop of [findFirstCandidate], which need not terminate: [fuel]
    bounds its rounds, and [None] is the answer when it runs out. *)
Fixpoint findFirstCandidate (fuel : nat) (x y : Z) (g : group)
  : option (attempt (group * bool * bool)) :=
  match at_ (rows g) (posY g) with
  | Failed why => Some (Failed why)
  | Returned row =>
      if lenOf row - 1 <? posX g then
        match fuel with
        | O => None
        | S fuel' =>
            let g := set_posY (posY g + y) g in
            let g := set_posY (posY g + x) g in
            (* Previous column or group *)
            if (posY g <? 0) && (posX g =? 0)
            then Some (Returned (set_posY 0 (set_posX 0 g), true, false))
            else
              let g := if posY g <? 0
                       then set_posX (posX g - 1)
                              (set_posY (lenOf (rows g) - 1) g)
                       else g in
              (* Next column or group *)
              if maxY g - 1 <? posY g then
                let g := set_posY 0 g in
                if posX g <? lenOf (columnsWidth g) - 1
                then findFirstCandidate fuel' x y (set_posX (posX g + 1) g)
                else Some (Returned (g, true, true))
              else findFirstCandidate fuel' x y g
        end
      else Some (Returned (g, false, false))
  end.

Definition lastCell (fuel : nat) (g : group) : option (attempt group) :=
  let g := set_posY (lenOf (rows g) - 1) g in
  let g := set_posX (lenOf (columnsWidth g) - 1) g in
  if aliased g then
    match findFirstCandidate fuel 0 (-1) g with
    | Some (Returned (g, _, _)) => Some (Returned g)
    | Some (Failed why) => Some (Failed why)
    | None => None
    end
  else
    Some (row ← at_ (rows g) (posY g);
          Returned (set_posX (lenOf row - 1) g)).

(** [Strip] is [color.Strip]. *)
Definition selected (Strip : string -> string) (g : group)
  : attempt Candidate :=
  comp ← (if (posY g =? -1) || (posX g =? -1)
          then row ← at_ (rows g) 0; at_ row 0
          else row ← at_ (rows g) (posY g); at_ row (posX g));
  Returned (if negb (preserveEscapes g)
            then mkCandidate (Strip (Value comp)) (Display comp)
                   (Description comp)
            else comp).

(** Steps 1 and 2 of [moveSelector]: the moves out of the first column
    and out of the first row. [Some] is an early return. *)
Definition moveSelector_back (reverse : bool) (g : group)
  : attempt (group + group * bool * bool) :=
  (* 1) Ensure columns is minimum one, if not, either
     go to previous row, or go to previous group. *)
  r ← (if posX g <? 0 then
         if (posY g =? 0) && reverse
         then Returned (inr (set_posY 0 (set_posX 0 g), true, false))
         else
           let g := set_posY (posY g - 1) g in
           row ← at_ (rows g) (posY g);
           Returned (inl (set_posX (lenOf row - 1) g))
       else Returned (inl g));
  match r with
  | inr ret => Returned (inr ret)
  | inl g =>
      (* 2) If we are reverse-cycling and currently on the first
         candidate, we are done with this group. *)
      if posY g <? 0 then
        if posX g =? 0
        then Returned (inr (set_posY 0 (set_posX 0 g), true, false))
        else Returned (inl (set_posX (posX g - 1)
                              (set_posY (lenOf (rows g) - 1) g)))
      else Returned (inl g)
  end.

Definition moveSelector (fuel : nat) (x y : Z) (g : group)
  : option (attempt (group * bool * bool)) :=
  (* When the group has not yet been used, adjust *)
  let g := if (posX g =? -1) && (posY g =? -1)
           then if negb (x =? 0) then set_posY (posY g + 1) g
                else set_posX (posX g + 1) g
           else g in
  let g := set_posX (posX g + x) g in
  let g := set_posY (posY g + y) g in
  let reverse := (x <? 0) || (y <? 0) in
  match moveSelector_back reverse g with
  | Failed why => Some (Failed why)
  | Returned (inr ret) => Some (Returned ret)
  | Returned (inl g) =>
      (* 3) If we are on the last row, we might have to move to
         the next column, if there is another one. *)
      let over := maxY g - 1 <? posY g in
      let g := if over then set_posY 0 g else g in
      if over && negb (posX g <? maxX g - 1)
      then Some (Returned (g, true, true))
      else
        let g := if over then set_posX (posX g + 1) g else g in
        (* 4) If we are on the last column, go to next row or next group *)
        match at_ (rows g) (posY g) with
        | Failed why => Some (Failed why)
        | Returned row =>
            if lenOf row - 1 <? posX g then
              if aliased g then findFirstCandidate fuel x y g
              else
                let g := set_posX 0 g in
                if posY g <? maxY g - 1
                then Some (Returned (set_posY (posY g + 1) g, false, false))
                else Some (Returned (g, true, true))
            else
              (* By default, come back to this group for next item. *)
              Some (Returned (g, false, false))
        end
  end.

(** ** Writing a group *)

(** The loop of [writeComps] over the rows that are left: [columns] and
    [rows] are the two counters. [writeRow] is the method [g.writeRow],
    which returns the text of a row and may update the group. *)
Fixpoint writeComps_loop (writeRow : group -> Z -> string * group)
    (left : nat) (g : group) (comp : string) (columns rows : Z)
  : string * Z * group :=
  match left with
  | O => (comp, rows, g)
  | S left' =>
      let '(row, g) := writeRow g columns in
      let comp := (comp +:+ row)%string in
      let columns := columns + 1 in
      let rows := rows + 1 in
      if maxY g <? rows then (comp, rows, g)
      else writeComps_loop writeRow left' g comp columns rows
  end.

(** [header] is the line that shows the tag, [usedY] the counter
    [eng.usedY]. *)
Definition writeComps (header : string -> string)
    (writeRow : group -> Z -> string * group) (g : group) (usedY : Z)
  : string * Z * group :=
  if lenOf (rows g) =? 0 then (""%string, usedY, g)
  else
    let '(comp, usedY) :=
      if negb (bool_decide (tag g = ""%string))
      then (header (tag g), usedY + 1) else (""%string, usedY) in
    let '(comp, rows, g) :=
      writeComps_loop writeRow (length (rows g)) g comp 0 0 in
    (comp, usedY + rows, g).

(** ** The vocabulary of the properties of the groups *)

(** The candidate with its display string ensured: the value stands in
    for an empty display. *)
Definition withDisplay (val : Candidate) : Candidate :=
  if bool_decide (Display val = ""%string)
  then mkCandidate (Value val) (Value val) (Description val) else val.

(** Whether the candidate has a description. *)
Definition described (val : Candidate) : bool :=
  negb (bool_decide (Description val = ""%string)).

(** The groups that [justifyGroups] justifies: those whose tag, or the
    tag "*", is a key of [Pad], and that are neither aliased nor laid out
    in more than one column. *)
Definition justifies (Pad : gmap string bool) (g : group) : bool :=
  (bool_decide (is_Some (Pad !! tag g))
   || bool_decide (is_Some (Pad !! "*"%string)))
  && negb (aliased g || (1 <? lenOf (columnsWidth g))).

(** The indices, counted from [k], of the groups that are justified. *)
Fixpoint justifiedFrom (Pad : gmap string bool) (k : nat) (gs : list group)
  : list nat :=
  match gs with
  | [] => []
  | g :: gs' =>
      (if justifies Pad g then [k] else []) ++ justifiedFrom Pad (S k) gs'
  end.

(** The number of candidates in a full row of a group that is not
    aliased: one in a list, else as many cells as fit in the terminal, and
    one at least. *)
Definition rowSize (termWidth : Z) (g : group) : Z :=
  if list_ g then 1 else Z.max 1 (Z.quot termWidth (maxCellLength g)).

(** Rows that form a grid of width [n]: every row but the last holds
    [n] candidates, the last holds between 1 and [n]. *)
Definition grid (n : Z) (rows : list (list Candidate)) : Prop :=
  rows = []
  ∨ ∃ full last, rows = full ++ [last]
      ∧ Forall (fun row => lenOf row = n) full ∧ 1 ≤ lenOf last ≤ n.

(** A group laid out for the selector: not aliased, no empty row, and
    between 1 and all of its rows shown. *)
Definition laidOut (g : group) : Prop :=
  aliased g = false ∧ Forall (fun row => row ≠ []) (rows g)
  ∧ 1 ≤ maxY g ≤ lenOf (rows g).

(** The selector is on a cell of one of the rows shown. *)
Definition onCell (g : group) : Prop :=
  ∃ row, 0 ≤ posY g < maxY g ∧ rows g !! Z.to_nat (posY g) = Some row
         ∧ 0 ≤ posX g < lenOf row.

(** The group has not been used yet: the selector is at (-1, -1). *)
Definition unused (g : group) : Prop := posX g = -1 ∧ posY g = -1.

(** A move of the selector by one cell. *)
Definition unitStep (x y : Z) : Prop :=
  (x = 1 ∧ y = 0) ∨ (x = -1 ∧ y = 0) ∨ (x = 0 ∧ y = 1) ∨ (x = 0 ∧ y = -1).

(** The selector moved within the group: nothing but its position has
    changed. *)
Definition sameLayout (g g' : group) : Prop :=
  rows g' = rows g ∧ columnsWidth g' = columnsWidth g
  ∧ aliased g' = aliased g ∧ maxX g' = maxX g ∧ maxY g' = maxY g.

(** ** Groups used as concrete inputs *)

(** The group that [newGroup] creates. *)
Definition freshGroup (tag : string) (aliased : bool) : group :=
  mkGroup tag [] [0] false aliased false 0 0 0 (-1) (-1) 0 0.

Definition apple : Candidate := mkCandidate "apple" "apple" "".
Definition banana : Candidate := mkCandidate "banana" "banana" "".
Definition cherry : Candidate := mkCandidate "cherry" "cherry" "".
Definition fruits : list Candidate := [apple; banana; cherry].

(** The fruits in a grid of two columns of 40 cells, the selector on the
    banana. *)
Definition fruitGrid : group :=
  mkGroup "" [[apple; banana]; [cherry]] [40; 40] false false false 0 0 40
    1 0 2 2.

(** The fruits in a list under a tag, of which one row is to be shown. *)
Definition fruitList : group :=
  mkGroup "fruits" [[apple]; [banana]; [cherry]] [7] true false false 1 0 7
    (-1) (-1) 1 1.

(** The number of bytes of a string, the rune count of an ASCII string. *)
Definition byteCount (s : string) : Z := Z.of_nat (String.length s).

(** * The widgets *)

Section Widgets.

(** Go's package [unicode]. *)
Variable IsLower : rune -> bool.
Variables ToUpper ToLower : rune -> rune.

(** Helpers of the package that are defined in other files and of which
    the properties below need nothing: the word and bracket jumps (each
    returns a delta), the find-char motion, the plain save of a buffer to
    the register store, and the deletion and insertion at the cursor. *)
Variable viJumpW : tokeniser -> rlInstance -> Z.
Variable viJumpBracket : rlInstance -> Z.
Variable findAndMoveCursor :
  gostring -> Z -> bool -> bool -> rlInstance -> rlInstance.
Variable saveBufToRegister : list rune -> rlInstance -> rlInstance.
Variable deletex : rlInstance -> rlInstance.
Variable rl_insert : list rune -> rlInstance -> rlInstance.

Definition viInsertMode (rl : rlInstance) : rlInstance :=
  let rl := set_local nolocal rl in
  let rl := set_main viins rl in
  let rl := addIteration "" rl in
  let rl := set_mark (-1) rl in
  let rl := set_activeRegion false rl in
  let rl := set_visualLine false rl in
  updateCursor rl.

Definition viCommandMode (rl : rlInstance) : rlInstance :=
  let rl := addIteration "" rl in
  let rl := set_viUndoSkipAppend true rl in
  let rl := set_mark (-1) rl in
  let rl := set_activeRegion false rl in
  let rl := set_visualLine false rl in
  (* Only go back if not in insert mode *)
  let rl := if bool_decide (main rl = viins) && (0 <? len (line rl))
               && (0 <? pos rl)
            then set_pos (pos rl - 1) rl else rl in
  let rl := set_local nolocal rl in
  let rl := set_main vicmd rl in
  let rl := updateCursor rl in
  refreshVimStatus rl.

Definition viVisualMode (rl : rlInstance) : rlInstance :=
  let lastMode := local rl in
  let wasVisualLine := visualLine rl in
  let rl := addIteration "" rl in
  let rl := set_viUndoSkipAppend true rl in
  let rl := enterVisualMode rl in
  (* We don't do anything else if the mode did not change. *)
  if bool_decide (lastMode = local rl)
     && bool_decide (wasVisualLine = visualLine rl)
  then rl
  else updateCursor rl.

Definition viVisualLineMode (rl : rlInstance) : rlInstance :=
  let lastMode := local rl in
  let wasVisualLine := visualLine rl in
  let rl := addIteration "" rl in
  let rl := set_viUndoSkipAppend true rl in
  let rl := enterVisualLineMode rl in
  (* We don't do anything else if the mode did not change. *)
  if bool_decide (lastMode = local rl)
     && bool_decide (wasVisualLine = visualLine rl)
  then rl
  else updateCursor rl.

Definition viAddNext (rl : rlInstance) : rlInstance :=
  let rl := if 0 <? len (line rl) then set_pos (pos rl + 1) rl else rl in
  viInsertMode rl.

Definition viKillEol (rl : rlInstance) : outcome rlInstance :=
  let pos0 := pos rl in
  let pos0 := if pos0 <? 0 then pos0 - 1 else pos0 in
  killed ← slice_from (line rl) pos0;
  let rl := saveBufToRegister killed rl in
  kept ← slice_to (line rl) (pos rl);
  let rl := set_line kept rl in
  (* Only go back if there is an input *)
  let rl := if 0 <? len (line rl) then set_pos (pos rl - 1) rl else rl in
  let rl := addIteration "" rl in
  let rl := resetHelpers rl in
  Done (updateHelpers rl).

Definition viChangeEol (rl : rlInstance) : outcome rlInstance :=
  changed ← slice_from (line rl) (pos rl - 1);
  let rl := saveBufToRegister changed rl in
  kept ← slice_to (line rl) (pos rl);
  let rl := set_line kept rl in
  let rl := addIteration "" rl in
  let rl := resetHelpers rl in
  Done (viInsertMode rl).

Definition viForwardChar (rl : rlInstance) : rlInstance :=
  let rl := set_viUndoSkipAppend true rl in
  (* In vi-cmd-mode, we don't go further than the last character *)
  if negb (bool_decide (main rl = viins)) && (pos rl <? len (line rl) - 1)
  then set_pos (pos rl + 1) rl
  (* And we can't go further than the line anyway. *)
  else if bool_decide (main rl = viins) && (pos rl <? len (line rl))
  then set_pos (pos rl + 1) rl
  else rl.

Definition viEndOfLine (rl : rlInstance) : rlInstance :=
  let rl := set_pos (len (line rl)) rl in
  set_viUndoSkipAppend true rl.

(** The body shared by the two branches of [viSwapCase]. *)
Definition swapCase (char : rune) : rune :=
  if IsLower char then ToUpper char else ToLower char.

(** [for range rl.line[bpos:epos]]: one round per element of the slice. *)
Fixpoint viSwapCase_loop (rounds : nat) (rl : rlInstance)
  : outcome rlInstance :=
  match rounds with
  | O => Done rl
  | S rounds' =>
      char ← index (line rl) (pos rl);
      l ← assign (line rl) (pos rl) (swapCase char);
      viSwapCase_loop rounds' (set_pos (pos rl + 1) (set_line l rl))
  end.

Definition viSwapCase (rl : rlInstance) : outcome rlInstance :=
  if bool_decide (local rl = visual) then
    let posInit := pos rl in
    let '(bpos, epos, _) := getSelection rl in
    let rl := resetSelection rl in
    let rl := set_pos bpos rl in
    selected ← slice (line rl) bpos epos;
    rl ← viSwapCase_loop (length selected) rl;
    let rl := set_pos posInit rl in
    let rl := viCommandMode rl in
    Done (updateCursor rl)
  else
    char ← index (line rl) (pos rl);
    l ← assign (line rl) (pos rl) (swapCase char);
    Done (set_line l rl).

(** [for i := rl.pos + 1; i < len(rl.line); i++]: the index of the first
    closing bracket of [l], the part of the line from index [i] on. *)
Fixpoint nextClosing (l : list rune) (i : Z) : option Z :=
  match l with
  | [] => None
  | char :: l' =>
      if bool_decide (char = 125 ∨ char = 41 ∨ char = 93) then Some i
      else nextClosing l' (i + 1)
  end.

Definition viMatchBracket (rl : rlInstance) : outcome rlInstance :=
  let rl := set_viUndoSkipAppend true rl in
  char ← index (line rl) (pos rl);
  (* If we are on a bracket/brace/parenthesis, we just find the matcher *)
  if negb (isBracket char) then
    (* First find the next bracket/brace/parenthesis *)
    match nextClosing (drop (Z.to_nat (pos rl + 1)) (line rl)) (pos rl + 1)
    with
    | None => Done rl
    | Some i =>
        let nextPos := i - pos rl in
        let rl := moveCursorByAdjust nextPos rl in
        Done (moveCursorByAdjust (viJumpBracket rl) rl)
    end
  else Done (moveCursorByAdjust (viJumpBracket rl) rl).

(** [for i := bpos; i < epos; i++ { rl.line[i] = []rune(key)[0] }] *)
Fixpoint viReplaceChars_loop (rounds : nat) (i : Z) (key : gostring)
    (l : list rune) : outcome (list rune) :=
  match rounds with
  | O => Done l
  | S rounds' =>
      char ← index (runes_of_string key) 0;
      l ← assign l i char;
      viReplaceChars_loop rounds' (i + 1) key l
  end.

(** [answer] is what [readArgumentKey] returns: the key and whether it
    was the escape key. *)
Definition viReplaceChars (answer : gostring * bool) (rl : rlInstance)
  : outcome rlInstance :=
  let rl := set_viUndoSkipAppend true rl in
  (* We read a character to use first. *)
  let rl := enterVioppMode "" rl in
  let rl := updateCursor rl in
  let '(key, esc) := answer in
  if esc then
    let rl := exitVioppMode rl in
    Done (updateCursor rl)
  else
    let rl := exitVioppMode rl in
    let rl := updateCursor rl in
    (* In visual mode, we replace all chars of the selection *)
    if activeRegion rl || bool_decide (local rl = visual) then
      let '(bpos, epos, _) := getSelection rl in
      l ← viReplaceChars_loop (Z.to_nat (epos - bpos)) bpos key (line rl);
      let rl := set_line l rl in
      let rl := set_pos bpos rl in
      Done (viCommandMode rl)
    else
      (* Or simply the character under the cursor. *)
      let rl := deletex rl in
      let rl := rl_insert (runes_of_string key) rl in
      Done (set_pos (pos rl - 1) rl).

(** The body of the four find-char widgets, which differ in the two
    flags only. *)
Definition viFindChar (forward skip : bool) (answer : gostring * bool)
    (rl : rlInstance) : outcome rlInstance :=
  let rl := enterVioppMode "" rl in
  let rl := updateCursor rl in
  (* Read the argument key to use as a pattern to search *)
  let '(key, esc) := answer in
  if esc then
    let rl := exitVioppMode rl in
    Done (updateCursor rl)
  else
    let rl := exitVioppMode rl in
    let rl := updateCursor rl in
    let '(times, rl) := getViIterations rl in
    byte ← lastByte key;
    Done (findAndMoveCursor [byte] times forward skip rl).

Definition viFindNextChar := viFindChar true false.
Definition viFindNextCharSkip := viFindChar true true.
Definition viFindPrevChar := viFindChar false false.
Definition viFindPrevCharSkip := viFindChar false true.

(** [for i := 1; i <= vii; i++ { body }] *)
Definition times (vii : Z) (body : rlInstance -> rlInstance)
    (rl : rlInstance) : rlInstance :=
  Nat.iter (Z.to_nat vii) body rl.

Definition viForwardWord (rl : rlInstance) : rlInstance :=
  let rl := set_viUndoSkipAppend true rl in
  (* If the input line is empty, we don't do anything *)
  if (pos rl =? 0) && (len (line rl) =? 0) then rl
  else
    let '(vii, rl) := getViIterations rl in
    let rl :=
      times vii (fun rl => moveCursorByAdjust (viJumpW tokeniseLine rl) rl)
        rl in
    (* We make an adjustment to the mark if we are currently
       yanking, and this widget is the argument action. *)
    if bool_decide (local rl = viopp) && activeRegion rl
    then set_pos (pos rl - 1) rl
    else rl.


Definition viDelete (rl : rlInstance) : rlInstance :=
  if activeRegion rl || bool_decide (local rl = visual) then
    let rl := deleteSelection rl in
    let rl := resetSelection rl in
    if bool_decide (local rl = visual)
    then updateCursor (viCommandMode rl)
    else rl
  else
    (* The source tests [rl.local == viopp] here, with an empty body. *)
    let rl := enterVioppMode "vi-delete" rl in
    let rl := updateCursor rl in
    let rl := set_mark (pos rl) rl in
    set_activeRegion true rl.

Definition viDigitOrBeginningOfLine (rl : rlInstance) : rlInstance :=
  (* If the last command was a digit argument,
     then our Vi iterations' length is not 0 *)
  if (0 <? String.length (viIteration rl))%nat then addIteration "0" rl
  (* Else we go the beginning of line. *)
  else beginningOfLine rl.

(** The body of [viGotoColumn], with the helper it reads the count with,
    [rl.getViIterations()], as a parameter. *)
Definition viGotoColumn_with (getViIterations : rlInstance -> Z * rlInstance)
    (rl : rlInstance) : rlInstance :=
  let iterations := viIteration rl in
  let '(column, rl) := getViIterations rl in
  let column :=
    if bool_decide (iterations = ""%string) then 0
    else if column <? 0 then len (line rl) + column
    else column in
  set_pos column rl.

Definition viGotoColumn : rlInstance -> rlInstance :=
  viGotoColumn_with getViIterations.

(** [for i := range rl.line]: the first index, counted from [i], at which
    [l] holds a space. *)
Fixpoint firstSpace (l : list rune) (i : Z) : option Z :=
  match l with
  | [] => None
  | char :: l' => if char =? 32 then Some i else firstSpace l' (i + 1)
  end.

Definition viFirstNonBlank (rl : rlInstance) : rlInstance :=
  match firstSpace (line rl) 0 with
  | Some i => set_pos i rl
  | None => rl
  end.

Definition viAddSurround (answer : gostring * bool) (rl : rlInstance)
  : outcome rlInstance :=
  let rl := enterVioppMode "" rl in
  let rl := updateCursor rl in
  let '(key, esc) := answer in
  if esc then
    let rl := exitVioppMode rl in
    Done (updateCursor rl)
  else
    let rl := exitVioppMode rl in
    let rl := updateCursor rl in
    (* Surround the selection *)
    let '(bpos, epos, _) := getSelection rl in
    selected ← slice (line rl) bpos epos;
    let selection := string_of_runes selected in
    let selection := key ++ selection ++ key in
    let rl := resetSelection rl in
    (* Assemble *)
    before ← slice_to (line rl) bpos;
    let begin_ := string_of_runes before in
    after ← slice_from (line rl) epos;
    let end_ := string_of_runes after in
    let newLine := runes_of_string begin_ ++ runes_of_string selection in
    let newLine := newLine ++ runes_of_string end_ in
    Done (set_line newLine rl).

(** ** The other widgets of the file *)

(** The two backspace characters, constants of the package. *)
Variables charBackspace charBackspace2 : Z.

(** The jumps to the previous word and to the end of the word, helpers of
    the package like [viJumpW]; the multi-line callback of the session and
    the launcher of the external editor, which returns the new buffer and
    whether it failed; the helper that clears the input line. *)
Variable viJumpB : tokeniser -> rlInstance -> Z.
Variable viJumpE : tokeniser -> rlInstance -> Z.
Variable GetMultiLine : option (list rune -> list rune).
Variable StartEditorWithBuffer : list rune -> list rune * bool.
Variable clearLine : rlInstance -> rlInstance.

Definition viBackwardChar (rl : rlInstance) : rlInstance :=
  let rl := set_viUndoSkipAppend true rl in
  if 0 <? pos rl then set_pos (pos rl - 1) rl else rl.

Definition viBackwardWord (rl : rlInstance) : rlInstance :=
  let rl := set_viUndoSkipAppend true rl in
  let '(vii, rl) := getViIterations rl in
  times vii (fun rl => moveCursorByAdjust (viJumpB tokeniseLine rl) rl) rl.

Definition viBackwardBlankWord (rl : rlInstance) : rlInstance :=
  let rl := set_viUndoSkipAppend true rl in
  let '(vii, rl) := getViIterations rl in
  times vii
    (fun rl => moveCursorByAdjust (viJumpB tokeniseSplitSpaces rl) rl) rl.

Definition viForwardWordEnd (rl : rlInstance) : rlInstance :=
  let rl := set_viUndoSkipAppend true rl in
  let '(vii, rl) := getViIterations rl in
  times vii (fun rl => moveCursorByAdjust (viJumpE tokeniseLine rl) rl) rl.

Definition viForwardBlankWordEnd (rl : rlInstance) : rlInstance :=
  let rl := set_viUndoSkipAppend true rl in
  let '(vii, rl) := getViIterations rl in
  times vii
    (fun rl => moveCursorByAdjust (viJumpE tokeniseSplitSpaces rl) rl) rl.

Definition viForwardBlankWord (rl : rlInstance) : rlInstance :=
  (* If the input line is empty, we don't do anything *)
  if (pos rl =? 0) && (len (line rl) =? 0) then rl
  else
    let rl := set_viUndoSkipAppend true rl in
    let '(vii, rl) := getViIterations rl in
    times vii
      (fun rl => moveCursorByAdjust (viJumpW tokeniseSplitSpaces rl) rl) rl.

(** [rl.local == visual || rl.local == viopp] *)
Definition inRegionMode (rl : rlInstance) : bool :=
  bool_decide (local rl = visual) || bool_decide (local rl = viopp).

Definition viSelectABlankWord (rl : rlInstance) : rlInstance :=
  (* Go the beginning of the word and start mark *)
  let rl := set_pos (pos rl + 1) rl in
  let rl := viBackwardBlankWord rl in
  let rl := if inRegionMode rl then set_mark (pos rl) rl else rl in
  (* Then go to the end of the blank word *)
  let rl := viForwardBlankWord rl in
  if inRegionMode rl
  then set_activeRegion true (set_pos (pos rl - 1) rl)
  else rl.

Definition viSelectAWord (rl : rlInstance) : rlInstance :=
  let rl := set_pos (pos rl + 1) rl in
  let rl := viBackwardWord rl in
  let rl := if inRegionMode rl then set_mark (pos rl) rl else rl in
  let rl := viForwardWord rl in
  if inRegionMode rl
  then set_activeRegion true (set_pos (pos rl - 1) rl)
  else rl.

Definition viSelectInBlankWord (rl : rlInstance) : rlInstance :=
  let rl := set_pos (pos rl + 1) rl in
  let rl := viBackwardBlankWord rl in
  let rl := if inRegionMode rl then set_mark (pos rl) rl else rl in
  let rl := viForwardBlankWordEnd rl in
  if inRegionMode rl then set_activeRegion true rl else rl.

Definition viSelectInWord (rl : rlInstance) : rlInstance :=
  let rl := set_pos (pos rl + 1) rl in
  let rl := viBackwardWord rl in
  let rl := if inRegionMode rl then set_mark (pos rl) rl else rl in
  let rl := viForwardWordEnd rl in
  if inRegionMode rl then set_activeRegion true rl else rl.

(** One round of the loop of [viReplace] on a key that is not the escape
    key. [cache] holds the replaced runes, the most recent first. *)
Definition viReplace_key (keys : gostring) (cache : list rune)
    (rl : rlInstance) : outcome (list rune * rlInstance) :=
  key ← firstByte keys;
  (* If the key is a backspace, we go back one character *)
  if (key =? charBackspace) || (key =? charBackspace2) then
    let rl := if 0 <? pos rl then set_pos (pos rl - 1) rl else rl in
    (* And recover the last replaced character *)
    match cache with
    | key :: cache =>
        l ← assign (line rl) (pos rl) key;
        Done (cache, set_line l rl)
    | [] => Done (cache, rl)
    end
  else
    (* If the cursor is at the end of the line,
       we insert the character instead of replacing. *)
    if len (line rl) - 1 <? pos rl then
      let cache := 0 :: cache in
      let rl := set_line (line rl ++ [key]) rl in
      Done (cache, set_pos (pos rl + 1) rl)
    else
      replaced ← index (line rl) (pos rl);
      let cache := replaced :: cache in
      l ← assign (line rl) (pos rl) key;
      let rl := set_line l rl in
      Done (cache, set_pos (pos rl + 1) rl).

(** The loop of [viReplace]: [typed] are the keys that [readArgumentKey]
    returns before it answers escape. *)
Fixpoint viReplace_loop (typed : list gostring) (cache : list rune)
    (rl : rlInstance) : outcome rlInstance :=
  let rl := enterVioppMode "" rl in
  let rl := updateCursor rl in
  match typed with
  | [] =>
      let rl := exitVioppMode rl in
      Done (updateCursor rl)
  | keys :: typed' =>
      '(cache, rl) ← viReplace_key keys cache rl;
      (* Update the line *)
      let rl := updateHelpers rl in
      viReplace_loop typed' cache rl
  end.

Definition viReplace (typed : list gostring) (rl : rlInstance)
  : outcome rlInstance :=
  let rl := undoAppendHistory rl in
  let rl := set_viUndoSkipAppend true rl in
  rl ← viReplace_loop typed [] rl;
  (* When exiting the replace mode, move the cursor back *)
  let rl := set_pos (pos rl - 1) rl in
  let rl := exitVioppMode rl in
  Done (updateCursor rl).

Definition viEditCommandLine (rl : rlInstance) : rlInstance :=
  let rl := clearHelpers rl in
  let multiline := match GetMultiLine with
                   | None => line rl
                   | Some f => f (line rl)
                   end in
  (* Keep the previous cursor position *)
  let prev := pos rl in
  let '(new, err) := StartEditorWithBuffer multiline in
  if err || (len new =? 0)
     || bool_decide (string_of_runes new = string_of_runes multiline)
  then set_viUndoSkipAppend true rl
  else
    (* Clean the shell and put the new buffer, with adjusted pos *)
    let rl := clearLine rl in
    let rl := set_line new rl in
    if len (line rl) <? prev
    then set_pos (len (line rl) - 1) rl
    else set_pos prev rl.

(** The keys of one rune each that type the runes [bs]. *)
Definition plainKeys (bs : list rune) : list gostring :=
  (fun b => [b]) <$> bs.

(** A rune that one key of one byte types in replace mode: an ASCII rune
    that is neither of the backspaces. *)
Definition plainRune (b : rune) : Prop :=
  0 ≤ b < 128 ∧ b ≠ charBackspace ∧ b ≠ charBackspace2.

(** [for range rl.line[bpos:epos] { rl.viSwapCase(); rl.pos++ }]: one round
    per element of the slice. *)
Fixpoint viOperSwapCase_loop (rounds : nat) (rl : rlInstance)
  : outcome rlInstance :=
  match rounds with
  | O => Done rl
  | S rounds' =>
      rl ← viSwapCase rl;
      viOperSwapCase_loop rounds' (set_pos (pos rl + 1) rl)
  end.

Definition viOperSwapCase (rl : rlInstance) : outcome rlInstance :=
  if activeRegion rl || bool_decide (local rl = visual) then
    let posInit := pos rl in
    let '(bpos, epos, cpos) := getSelection rl in
    let rl := resetSelection rl in
    let rl := set_pos bpos rl in
    selected ← slice (line rl) bpos epos;
    rl ← viOperSwapCase_loop (length selected) rl;
    let rl := set_pos cpos rl in
    if bool_decide (local rl = visual) then
      let rl := set_pos posInit rl in
      let rl := viCommandMode rl in
      Done (updateCursor rl)
    else Done rl
  else
    (* Else we are actually starting the action: enter operator pending
       mode for the next key to be considered the argument. *)
    let rl := enterVioppMode "vi-oper-swap-case" rl in
    let rl := updateCursor rl in
    (* We set the initial mark, so that when executing this widget back
       after the argument, we have a selection. *)
    let rl := set_mark (pos rl) rl in
    Done (set_activeRegion true rl).

(** ** Sessions used as concrete inputs *)

Definition noRegisters : registerStore :=
  mkRegisters false 0 (mkRegister [] charWise) ∅ [].

(** A session in command mode on buffer [l] with the cursor at [p]: no
    selection, no count, nothing pending. *)
Definition session (l : list rune) (p : Z) : rlInstance :=
  mkInstance l p (-1) vicmd nolocal false false "" false noRegisters [].

(** The buffer holding the three letters a, b and c. *)
Definition abc : list rune := [97; 98; 99].

(** The buffer "xaby" in visual mode with the selection "ab": mark on the
    a, cursor on the b. *)
Definition selectionAB : rlInstance :=
  mkInstance [120; 97; 98; 121] 2 1 vicmd visual true false "" false
    noRegisters [].


(** vi-delete invoked on the empty buffer: the operator is pending. *)
Definition pendingOnEmpty : rlInstance := viDelete (session [] 0).



(** On the empty buffer no jump can move: its delta is zero. *)
Definition noJump (t : tokeniser) (rl : rlInstance) : Z := 0.

(** A session in insert mode on buffer [l] with the cursor at [p]. *)
Definition typing (l : list rune) (p : Z) : rlInstance :=
  set_main viins (session l p).

(** The buffer "xaby" with the region "ab" live (mark on the a, cursor
    on the b) and vi-oper-swap-case pending. *)
Definition regionAB : rlInstance :=
  mkInstance [120; 97; 98; 121] 2 1 vicmd viopp true false "" false
    noRegisters [("vi-oper-swap-case"%string, nolocal)].

(** The case functions of [unicode] on the letters of ASCII. *)
Definition asciiIsLower (r : rune) : bool := (97 <=? r) && (r <=? 122).
Definition asciiToUpper (r : rune) : rune :=
  if asciiIsLower r then r - 32 else r.
Definition asciiToLower (r : rune) : rune :=
  if (65 <=? r) && (r <=? 90) then r + 32 else r.

(** A save to the registers that is not observed. *)
Definition noSave (buf : list rune) (rl : rlInstance) : rlInstance := rl.

(** An editor that returns "xy". *)
Definition editorXY (buf : list rune) : list rune * bool :=
  ([120; 121], false).

(** ** The vocabulary of the properties *)

(** The word jumps of vi-forward-word: the count is read, then each round
    moves the cursor by the delta of a jump to the next word. *)
Definition wordJumps (rl : rlInstance) : rlInstance :=
  let '(vii, rl) := getViIterations rl in
  times vii (fun rl => moveCursorByAdjust (viJumpW tokeniseLine rl) rl) rl.






(** The region mode was left: the session is back in command mode with
    the selection collapsed (mark unset, active-region flag false) and the
    buffer as it was. *)
Definition toggledOff (before after : rlInstance) : Prop :=
  main after = vicmd ∧ local after = nolocal
  ∧ mark after = -1 ∧ activeRegion after = false
  ∧ line after = line before.

(** The session is in visual mode with the variant [lineWise], which it
    was not in before, the buffer as it was. *)
Definition variantEntered (lineWise : bool) (before after : rlInstance)
  : Prop :=
  local after = visual ∧ visualLine after = lineWise
  ∧ visualLine after ≠ visualLine before
  ∧ line after = line before.



(** The closing brackets that [viMatchBracket] looks for. *)
Definition closing (r : rune) : Prop := r = 125 ∨ r = 41 ∨ r = 93.

(** The four widgets that select a word or a blank word. *)
Definition selectWord : list (rlInstance → rlInstance) :=
  [viSelectABlankWord; viSelectAWord; viSelectInBlankWord; viSelectInWord].

(** A motion moves the cursor and nothing else of the buffer, the modes
    and the region. *)
Definition motion (m : rlInstance → rlInstance) : Prop :=
  ∀ rl, line (m rl) = line rl ∧ main (m rl) = main rl
        ∧ local (m rl) = local rl ∧ mark (m rl) = mark rl
        ∧ activeRegion (m rl) = activeRegion rl.

(** A motion that leaves the cursor within the buffer wherever it was. *)
Definition clampedMotion (m : rlInstance → rlInstance) : Prop :=
  motion m ∧ ∀ rl, 0 ≤ pos (m rl) ≤ len (line rl).

(** * Properties of the widgets *)

(** ** vi-first-non-blank *)

Lemma firstSpace_spec (l : list rune) (k : Z) :
  match firstSpace l k with
  | Some r => ∃ i : nat, r = k + Z.of_nat i ∧ l !! i = Some 32
                         ∧ ∀ j : nat, (j < i)%nat → l !! j ≠ Some 32
  | None => 32 ∉ l
  end.
Proof.
  revert k. induction l as [|c l IH]; intros k; cbn [firstSpace].
  - apply not_elem_of_nil.
  - destruct (Z.eqb_spec c 32) as [->|Hc].
    + exists 0%nat. split; [lia|]. split; [done|]. intros j Hj. lia.
    + specialize (IH (k + 1)). destruct (firstSpace l (k + 1)) as [r|].
      * destruct IH as (i & -> & Hi & Hmin). exists (S i).
        split; [lia|]. split; [done|].
        intros [|j] Hj; cbn; [congruence|]. apply Hmin. lia.
      * rewrite not_elem_of_cons. split; [congruence|done].
Qed.

(** C9. For every buffer, vi-first-non-blank sets the cursor to the index
    of the first space of the buffer when there is one (the index [i] that
    holds a space while no smaller index does), leaves the cursor where
    it is when the buffer holds no space, and never changes the buffer. *)
Theorem viFirstNonBlank_first_space (rl : rlInstance) :
  line (viFirstNonBlank rl) = line rl
  ∧ (∀ i : nat,
       line rl !! i = Some 32 →
       (∀ j : nat, (j < i)%nat → line rl !! j ≠ Some 32) →
       pos (viFirstNonBlank rl) = Z.of_nat i)
  ∧ (32 ∉ line rl → pos (viFirstNonBlank rl) = pos rl).
Proof.
  unfold viFirstNonBlank.
  pose proof (firstSpace_spec (line rl) 0) as H.
  destruct (firstSpace (line rl) 0) as [r|].
  - destruct H as (i0 & -> & Hi0 & Hmin0). cbn.
    split; [done|]. split.
    + intros i Hi Hmin.
      destruct (Nat.lt_trichotomy i i0) as [Hlt|[->|Hgt]]; [|lia|].
      * exfalso. by apply (Hmin0 i).
      * exfalso. by apply (Hmin i0).
    + intros Hno. exfalso. apply Hno. by eapply list_elem_of_lookup_2.
  - split; [done|]. split; [|done].
    intros i Hi _. exfalso. apply H. by eapply list_elem_of_lookup_2.
Qed.

(** ** vi-goto-column and vi-digit-or-beginning-of-line *)

(** C8. With no count accumulated (empty iteration string) vi-goto-column
    puts the cursor on column 0; with a count accumulated it puts the
    cursor on the parsed value, whatever helper parses it, a negative value
    being counted from the end of the buffer. With the count read as the
    specification says, an explicit count of 1 therefore gives column 1,
    not the column 0 of an absent count. *)
Theorem viGotoColumn_count_absence (rl : rlInstance) :
  (∀ parse : rlInstance → Z * rlInstance,
     pos (viGotoColumn_with parse rl) =
       if bool_decide (viIteration rl = ""%string) then 0
       else if (parse rl).1 <? 0 then len (line (parse rl).2) + (parse rl).1
       else (parse rl).1)
  ∧ (viIteration rl = ""%string → pos (viGotoColumn rl) = 0)
  ∧ (viIteration rl = "1"%string →
     (getViIterations rl).1 = 1 ∧ pos (viGotoColumn rl) = 1)
  ∧ line (viGotoColumn rl) = line rl.
Proof.
  split; [|split; [|split]].
  - intros parse. unfold viGotoColumn_with.
    by destruct (parse rl) as [column rl'].
  - intros Hit. unfold viGotoColumn, viGotoColumn_with, getViIterations.
    by rewrite Hit.
  - intros Hit. unfold viGotoColumn, viGotoColumn_with, getViIterations.
    by rewrite Hit.
  - done.
Qed.

(** C7. vi-digit-or-beginning-of-line appends the digit 0 to the
    iteration string exactly when that string is not empty at the call
    (the cursor then stays where it was); when it is empty, the widget
    moves the cursor to the beginning of the line and the iteration string
    stays empty. The buffer is the same in both cases. *)
Theorem viDigitOrBeginningOfLine_overload (rl : rlInstance) :
  (viIteration rl ≠ ""%string →
     viIteration (viDigitOrBeginningOfLine rl) = (viIteration rl +:+ "0")%string
     ∧ pos (viDigitOrBeginningOfLine rl) = pos rl)
  ∧ (viIteration rl = ""%string →
     viIteration (viDigitOrBeginningOfLine rl) = ""%string
     ∧ pos (viDigitOrBeginningOfLine rl) = 0)
  ∧ line (viDigitOrBeginningOfLine rl) = line rl.
Proof.
  unfold viDigitOrBeginningOfLine.
  destruct (viIteration rl) as [|c s] eqn:Hit; cbn.
  - split; [done|]. split; [|done]. intros _. split; [exact Hit|done].
  - unfold addIteration. case_decide; [done|]. cbn.
    split; [|split; [done|done]]. intros _. split; [|done].
    by rewrite Hit.
Qed.

(** ** Out-of-range accesses and the bounds of the cursor *)

(** Outside visual mode, vi-swap-case reads the rune under the cursor
    whatever the buffer holds: with the cursor at the end of the buffer
    (so on every empty buffer) the read is out of range. *)
Lemma viSwapCase_at_end (rl : rlInstance) :
  local rl ≠ visual → pos rl = len (line rl) →
  viSwapCase rl = Panicked IndexOutOfRange.
Proof.
  intros Hl Hp. unfold viSwapCase, index, len in *.
  rewrite bool_decide_eq_false_2 by done. rewrite Hp.
  rewrite (proj2 (Z.leb_le _ _)) by lia. rewrite Nat2Z.id.
  rewrite lookup_ge_None_2 by lia. done.
Qed.

(** vi-match-bracket reads the rune under the cursor first. *)
Lemma viMatchBracket_at_end (rl : rlInstance) :
  pos rl = len (line rl) → viMatchBracket rl = Panicked IndexOutOfRange.
Proof.
  intros Hp. unfold viMatchBracket, index, len in *. cbn. rewrite Hp.
  rewrite (proj2 (Z.leb_le _ _)) by lia. rewrite Nat2Z.id.
  rewrite lookup_ge_None_2 by lia. done.
Qed.

(** vi-change-eol slices the buffer from [pos - 1]. *)
Lemma viChangeEol_at_start (rl : rlInstance) :
  pos rl = 0 → viChangeEol rl = Panicked SliceBoundsOutOfRange.
Proof. intros Hp. unfold viChangeEol, slice_from, slice. by rewrite Hp. Qed.

(** C2 (the code does not meet it). On the empty buffer with the cursor at
    0, in command mode, vi-swap-case and vi-match-bracket index the buffer
    out of range and vi-change-eol slices it from -1; vi-change-eol does
    so on a non-empty buffer too when the cursor is at 0. Each of these
    calls panics instead of returning a session. *)
Theorem widgets_panic_at_buffer_edge :
  viSwapCase (session [] 0) = Panicked IndexOutOfRange
  ∧ viMatchBracket (session [] 0) = Panicked IndexOutOfRange
  ∧ viChangeEol (session [] 0) = Panicked SliceBoundsOutOfRange
  ∧ viChangeEol (session abc 0) = Panicked SliceBoundsOutOfRange.
Proof.
  split; [by apply viSwapCase_at_end|].
  split; [by apply viMatchBracket_at_end|].
  split; by apply viChangeEol_at_start.
Qed.

(** C5 (the code does not meet it). From sessions whose cursor is within
    [0, len(Buffer)]: vi-goto-column with the count 9 on a buffer of three
    runes leaves the cursor at 9; vi-add-next with the cursor at the end of
    that buffer leaves it at 4; vi-end-of-line, a motion in command mode,
    leaves it at 3, past the last rune. *)
Theorem cursor_leaves_its_bounds :
  let counted := set_viIteration "9" (session abc 0) in
  let atEnd := session abc 3 in
  let atStart := session abc 0 in
  (0 ≤ pos counted ≤ len (line counted)
   ∧ pos (viGotoColumn counted) = 9
   ∧ len (line (viGotoColumn counted)) = 3)
  ∧ (0 ≤ pos atEnd ≤ len (line atEnd)
     ∧ pos (viAddNext atEnd) = 4
     ∧ len (line (viAddNext atEnd)) = 3)
  ∧ (0 ≤ pos atStart ≤ len (line atStart) - 1
     ∧ main atStart = vicmd
     ∧ pos (viEndOfLine atStart) = 3
     ∧ len (line (viEndOfLine atStart)) = 3
     ∧ main (viEndOfLine atStart) = vicmd).
Proof. cbn zeta. repeat split; done. Qed.

(** X1. vi-forward-char, which tests the cursor against the length, stays
    within [0, len(Buffer)], and below [len(Buffer) - 1] in command mode
    when it starts there. *)
Lemma viForwardChar_bounds (rl : rlInstance) :
  0 ≤ pos rl ≤ len (line rl) →
  0 ≤ pos (viForwardChar rl) ≤ len (line (viForwardChar rl))
  ∧ (main rl = vicmd → pos rl ≤ len (line rl) - 1 →
     pos (viForwardChar rl) ≤ len (line rl) - 1).
Proof.
  intros Hp. unfold viForwardChar. cbn.
  destruct (main rl); repeat case_bool_decide; try done; cbn.
  - destruct (Z.ltb_spec (pos rl) (len (line rl))); cbn;
      (split; [lia|discriminate]).
  - destruct (Z.ltb_spec (pos rl) (len (line rl) - 1)); cbn; lia.
Qed.

(** ** vi-forward-word *)

Lemma times_invariant (P : rlInstance → Prop) (body : rlInstance → rlInstance)
    (vii : Z) (rl : rlInstance) :
  (∀ rl, P rl → P (body rl)) → P rl → P (times vii body rl).
Proof.
  intros Hbody Hrl. unfold times.
  induction (Z.to_nat vii) as [|n IH]; cbn; auto.
Qed.

(** The jumps move the cursor and consume the count; the mode, the region
    flag and the buffer are those of the call. *)
Lemma wordJumps_frame (rl : rlInstance) :
  local (wordJumps rl) = local rl
  ∧ activeRegion (wordJumps rl) = activeRegion rl
  ∧ line (wordJumps rl) = line rl.
Proof.
  unfold wordJumps, getViIterations.
  apply (times_invariant (fun r => local r = local rl
    ∧ activeRegion r = activeRegion rl ∧ line r = line rl)); [|done].
  intros r Hr. exact Hr.
Qed.

(** C10, as amended. vi-forward-word does nothing but flag the call
    undo-skip when the buffer is empty and the cursor at 0. Otherwise it
    performs its word jumps, and the position they reach is decremented by
    exactly one when the call is made in operator-pending mode with the
    active-region flag set; in every other combination of mode and flag the
    position reached by the jumps is final. *)
Theorem viForwardWord_pending_adjustment (rl : rlInstance) :
  let jumped := wordJumps (set_viUndoSkipAppend true rl) in
  viForwardWord rl =
    if (pos rl =? 0) && (len (line rl) =? 0)
    then set_viUndoSkipAppend true rl
    else if bool_decide (local rl = viopp) && activeRegion rl
         then set_pos (pos jumped - 1) jumped
         else jumped.
Proof.
  cbn zeta. unfold viForwardWord. cbn [pos line set_viUndoSkipAppend].
  destruct ((pos rl =? 0) && (len (line rl) =? 0)); [done|].
  destruct (wordJumps_frame (set_viUndoSkipAppend true rl)) as (Hl & Ha & _).
  unfold wordJumps, getViIterations in *. cbn zeta in *.
  rewrite Hl, Ha. done.
Qed.

(** ** Mode entries in closed form *)

Lemma addIteration_reset (rl : rlInstance) :
  addIteration "" rl = set_viIteration "" rl.
Proof. unfold addIteration. by case_decide. Qed.

Lemma viCommandMode_fields (rl : rlInstance) :
  viCommandMode rl =
    mkInstance (line rl)
      (if bool_decide (main rl = viins) && (0 <? len (line rl)) && (0 <? pos rl)
       then pos rl - 1 else pos rl)
      (-1) vicmd nolocal false false "" true (registers rl)
      (pendingActions rl).
Proof.
  unfold viCommandMode. rewrite addIteration_reset. cbn.
  by destruct (bool_decide (main rl = viins) && (0 <? len (line rl))
               && (0 <? pos rl)).
Qed.

(** ** The two phases of vi-yank and vi-delete *)





(** ** Operator-pending mode around the read of an argument key *)

(** Leaving operator-pending mode undoes the entry: the session is the one
    before the entry. *)
Lemma exitVioppMode_enterVioppMode (widget : string) (rl : rlInstance) :
  exitVioppMode (enterVioppMode widget rl) = rl.
Proof. by destruct rl. Qed.



(** On any other answer the four find-char widgets hand the last byte of
    the key and the count to [findAndMoveCursor], each with its direction
    and its skip flag. *)
Lemma viFindChar_seeks (key : gostring) (byte : Z) (rl : rlInstance) :
  lastByte key = Done byte →
  let '(times, rl') := getViIterations rl in
  viFindNextChar (key, false) rl
    = Done (findAndMoveCursor [byte] times true false rl')
  ∧ viFindNextCharSkip (key, false) rl
    = Done (findAndMoveCursor [byte] times true true rl')
  ∧ viFindPrevChar (key, false) rl
    = Done (findAndMoveCursor [byte] times false false rl')
  ∧ viFindPrevCharSkip (key, false) rl
    = Done (findAndMoveCursor [byte] times false true rl').
Proof.
  intros Hbyte.
  unfold viFindNextChar, viFindNextCharSkip, viFindPrevChar,
    viFindPrevCharSkip, viFindChar, updateCursor.
  rewrite !exitVioppMode_enterVioppMode.
  destruct (getViIterations rl) as [times rl']. by rewrite Hbyte.
Qed.


(** ** vi-add-surround *)

(** On Unicode scalar values the conversion of runes to a string and back
    gives the runes. *)
Lemma string_of_runes_valid (l : list rune) :
  forallb validRune l = true → string_of_runes l = l.
Proof.
  unfold string_of_runes. induction l as [|r l IH]; cbn; [done|].
  intros [Hr Hl]%andb_prop. rewrite Hr. f_equal. by apply IH.
Qed.

Lemma forallb_take {A} (f : A → bool) (n : nat) (l : list A) :
  forallb f l = true → forallb f (take n l) = true.
Proof.
  revert n. induction l as [|x l IH]; intros [|n]; cbn; try done.
  intros [-> Hl]%andb_prop. cbn. by apply IH.
Qed.

Lemma forallb_drop {A} (f : A → bool) (n : nat) (l : list A) :
  forallb f l = true → forallb f (drop n l) = true.
Proof.
  revert n. induction l as [|x l IH]; intros [|n]; cbn; try done.
  intros [_ Hl]%andb_prop. by apply IH.
Qed.

(** A slice within the bounds of the buffer is the part of the buffer in
    the range. *)
Lemma slice_within (l : list rune) (b e : Z) :
  0 ≤ b → b ≤ e → e ≤ len l → slice l b e = Done (sliceZ b e l).
Proof.
  intros Hb Hbe He. unfold slice, sliceZ.
  rewrite (proj2 (Z.leb_le 0 b)), (proj2 (Z.leb_le b e)),
    (proj2 (Z.leb_le e (len l))) by done. cbn.
  rewrite take_drop_commute. do 3 f_equal. lia.
Qed.

(** The range of a selection is never reversed. *)
Lemma getSelection_ordered (rl : rlInstance) (b e c : Z) :
  getSelection rl = (b, e, c) → b ≤ e.
Proof.
  unfold getSelection, len. destruct (visualLine rl); intros [= <- <- <-]; lia.
Qed.

(** C6. For every buffer L of Unicode scalar values, every selection that
    resolves to a range [b,e) of the buffer and every delimiter key k that
    is not the escape key, vi-add-surround returns with the buffer
    L[0:b] ++ [k] ++ L[b:e] ++ [k] ++ L[e:len(L)], so that every rune
    outside the selection is unchanged and in its place, and with the
    selection cleared (mark unset, active-region flag false). *)
Theorem viAddSurround_splices (rl : rlInstance) (k : rune) (b e c : Z) :
  getSelection rl = (b, e, c) →
  0 ≤ b → e ≤ len (line rl) →
  forallb validRune (line rl) = true →
  ∃ rl', viAddSurround ([k], false) rl = Done rl'
    ∧ line rl' = take (Z.to_nat b) (line rl) ++ [k] ++ sliceZ b e (line rl)
                   ++ [k] ++ drop (Z.to_nat e) (line rl)
    ∧ mark rl' = -1 ∧ activeRegion rl' = false.
Proof.
  intros Hsel Hb He Hvalid.
  pose proof (getSelection_ordered _ _ _ _ Hsel) as Hbe.
  unfold viAddSurround, updateCursor.
  rewrite exitVioppMode_enterVioppMode, Hsel.
  rewrite slice_within by done. cbn [mbind outcome_bind].
  unfold slice_to, slice_from. cbn [line resetSelection set_mark
    set_activeRegion].
  rewrite !slice_within by (unfold len in *; lia).
  cbn [mbind outcome_bind]. eexists. split; [reflexivity|].
  cbn [line mark activeRegion set_line resetSelection set_mark
    set_activeRegion].
  split; [|done]. unfold runes_of_string, sliceZ.
  rewrite !string_of_runes_valid
    by (repeat first [apply forallb_take | apply forallb_drop]; done).
  replace (Z.to_nat 0) with 0%nat by done. rewrite drop_0.
  rewrite (take_ge (line rl) (Z.to_nat (len (line rl))))
    by (unfold len; lia).
  by rewrite <- !app_assoc.
Qed.

(** ** The operators vi-yank and vi-delete *)







(** ** visual-mode and visual-line-mode *)

(** C3. Invoked while the local mode is already visual with the same
    variant (the visual-line flag unchanged), the visual-mode widget, and
    likewise the visual-line widget, exits the region mode: the session is
    back in command mode with the selection collapsed (mark unset,
    active-region flag false), and the buffer is not altered. Invoking the
    widget of the other variant instead is an actual mode change: the
    visual-line flag flips, the session staying in visual mode with its
    buffer. *)
Theorem visual_mode_toggle (rl : rlInstance) :
  local rl = visual →
  (visualLine rl = false →
   toggledOff rl (viVisualMode rl)
   ∧ variantEntered true rl (viVisualLineMode rl))
  ∧ (visualLine rl = true →
     toggledOff rl (viVisualLineMode rl)
     ∧ variantEntered false rl (viVisualMode rl)).
Proof.
  intros Hl.
  unfold viVisualMode, viVisualLineMode, enterVisualMode,
    enterVisualLineMode, exitVisualMode, updateCursor, toggledOff,
    variantEntered.
  rewrite addIteration_reset. cbn. rewrite Hl.
  split; intros Hv; rewrite Hv; cbn; repeat case_bool_decide; cbn;
    rewrite ?Hl, ?Hv; repeat split; done.
Qed.

(** ** The character motions and the return to command mode *)

(** X2. vi-backward-char never alters the buffer and never moves the
    cursor out of the bounds it is in: from a cursor in [0, len(Buffer)]
    it leaves the cursor in [0, len(Buffer)], and a cursor that is on a
    rune stays on a rune. *)
Theorem viBackwardChar_bounds (rl : rlInstance) :
  0 ≤ pos rl ≤ len (line rl) →
  line (viBackwardChar rl) = line rl
  ∧ 0 ≤ pos (viBackwardChar rl) ≤ len (line rl)
  ∧ pos (viBackwardChar rl) ≤ pos rl
  ∧ (pos rl ≤ len (line rl) - 1 →
     pos (viBackwardChar rl) ≤ len (line rl) - 1).
Proof.
  intros Hp. unfold viBackwardChar. cbn.
  destruct (Z.ltb_spec 0 (pos rl)); cbn; (split; [done|lia]).
Qed.

(** X3. Away from the ends of the buffer the two character motions undo
    each other: with the cursor on a rune that is not the first one,
    vi-backward-char followed by vi-forward-char brings the cursor back
    where it was, in command mode as in insert mode. *)
Theorem viBackwardChar_viForwardChar (rl : rlInstance) :
  0 < pos rl → pos rl ≤ len (line rl) - 1 →
  pos (viForwardChar (viBackwardChar rl)) = pos rl
  ∧ line (viForwardChar (viBackwardChar rl)) = line rl.
Proof.
  intros Hp Hlen. unfold viForwardChar, viBackwardChar. cbn.
  rewrite (proj2 (Z.ltb_lt 0 (pos rl))) by done. cbn.
  destruct (main rl); repeat case_bool_decide; try done; cbn.
  - rewrite (proj2 (Z.ltb_lt (pos rl - 1) (len (line rl)))) by lia.
    cbn. split; [lia|done].
  - rewrite (proj2 (Z.ltb_lt (pos rl - 1) (len (line rl) - 1))) by lia.
    cbn. split; [lia|done].
Qed.

(** X4. vi-cmd-mode never alters the buffer, always leaves the session in
    command mode with no local mode and no selection, and keeps a cursor
    that is within [0, len(Buffer)] there. Invoked from insert mode on a
    non-empty buffer it leaves the cursor on a rune (at most
    len(Buffer) - 1): the cursor steps back by one unless it is at 0.
    Invoked from command mode it does not move the cursor. *)
Theorem viCommandMode_cursor (rl : rlInstance) :
  0 ≤ pos rl ≤ len (line rl) →
  line (viCommandMode rl) = line rl
  ∧ main (viCommandMode rl) = vicmd ∧ local (viCommandMode rl) = nolocal
  ∧ mark (viCommandMode rl) = -1 ∧ activeRegion (viCommandMode rl) = false
  ∧ 0 ≤ pos (viCommandMode rl) ≤ len (line rl)
  ∧ (main rl = viins → line rl ≠ [] →
     pos (viCommandMode rl) ≤ len (line rl) - 1
     ∧ pos (viCommandMode rl) = Z.max 0 (pos rl - 1))
  ∧ (main rl = vicmd → pos (viCommandMode rl) = pos rl).
Proof.
  intros Hp. rewrite viCommandMode_fields. cbn.
  repeat (split; [done|]).
  assert (Hlen : line rl ≠ [] → 0 < len (line rl)).
  { unfold len. destruct (line rl); [done|]. cbn. lia. }
  destruct (main rl); repeat case_bool_decide; try done; cbn.
  destruct (Z.ltb_spec 0 (len (line rl))), (Z.ltb_spec 0 (pos rl)); cbn;
    (split; [lia|]); (split; [|done]); intros _ Hne;
    specialize (Hlen Hne); lia.
Qed.

(** ** Replace mode *)

Lemma splice_take {A} (l : list A) (p : nat) (b : A) :
  (p ≤ length l)%nat →
  take (S p) (take p l ++ b :: drop (S p) l) = take p l ++ [b].
Proof.
  intros Hp. rewrite take_app_ge by (rewrite length_take; lia).
  rewrite length_take. replace (S p - p `min` length l)%nat with 1%nat by lia.
  done.
Qed.

Lemma splice_drop {A} (l : list A) (p k : nat) (b : A) :
  (p ≤ length l)%nat →
  drop (S p + k) (take p l ++ b :: drop (S p) l) = drop (S p + k) l.
Proof.
  intros Hp. rewrite drop_app_ge by (rewrite length_take; lia).
  rewrite length_take.
  replace (S p + k - p `min` length l)%nat with (S k) by lia.
  cbn. rewrite drop_drop. f_equal.
Qed.

(** One plain key in replace mode: the rune under the cursor is replaced,
    or the key is appended when the cursor is at the end. *)
Lemma viReplace_key_plain (b : rune) (cache : list rune) (rl : rlInstance) :
  plainRune b → 0 ≤ pos rl ≤ len (line rl) →
  ∃ c, viReplace_key [b] cache rl
       = Done (c :: cache,
               set_pos (pos rl + 1)
                 (set_line (take (Z.to_nat (pos rl)) (line rl)
                            ++ b :: drop (S (Z.to_nat (pos rl))) (line rl)) rl))
    ∧ (pos rl < len (line rl) → line rl !! Z.to_nat (pos rl) = Some c).
Proof.
  intros (Hb & Hb1 & Hb2) Hp. unfold viReplace_key, firstByte.
  rewrite (proj2 (Z.ltb_lt b 128)) by lia. cbn [mbind outcome_bind].
  rewrite (proj2 (Z.eqb_neq b charBackspace)),
    (proj2 (Z.eqb_neq b charBackspace2)) by done. cbn [orb].
  destruct (Z.ltb_spec (len (line rl) - 1) (pos rl)); unfold len in *.
  - exists 0. assert (Z.to_nat (pos rl) = length (line rl)) as -> by lia.
    rewrite take_ge, drop_ge by lia. split; [done|lia].
  - destruct (lookup_lt_is_Some_2 (line rl) (Z.to_nat (pos rl))) as [c Hc];
      [lia|].
    exists c. unfold index, assign, len.
    rewrite (proj2 (Z.leb_le 0 (pos rl))) by lia. rewrite Hc.
    cbn [mbind outcome_bind].
    rewrite (proj2 (Z.ltb_lt (pos rl) (Z.of_nat (length (line rl))))) by lia.
    cbn. rewrite insert_take_drop by lia. done.
Qed.

(** Plain keys typed in replace mode, followed by whatever comes next. *)
Lemma viReplace_loop_plain (bs : list rune) :
  ∀ (rest : list gostring) (cache : list rune) (rl : rlInstance),
    Forall plainRune bs → 0 ≤ pos rl ≤ len (line rl) →
    ∃ rl2 cache2,
      viReplace_loop (plainKeys bs ++ rest) cache rl
        = viReplace_loop rest cache2 rl2
      ∧ line rl2 = take (Z.to_nat (pos rl)) (line rl) ++ bs
                   ++ drop (Z.to_nat (pos rl) + length bs) (line rl)
      ∧ pos rl2 = pos rl + Z.of_nat (length bs)
      ∧ (pos rl + Z.of_nat (length bs) ≤ len (line rl) →
         cache2 = rev (take (length bs) (drop (Z.to_nat (pos rl)) (line rl)))
                  ++ cache).
Proof.
  induction bs as [|b bs IH]; intros rest cache rl Hbs Hp.
  - exists rl, cache. cbn. rewrite Nat.add_0_r, take_drop.
    split; [done|]. split; [done|]. split; [lia|done].
  - apply Forall_cons in Hbs as [Hb Hbs].
    cbn [plainKeys fmap list_fmap app viReplace_loop].
    destruct (viReplace_key_plain b cache
                (updateCursor (enterVioppMode "" rl)) Hb Hp) as (c & -> & Hc).
    cbn [mbind outcome_bind]. cbn [pos line updateCursor enterVioppMode
      set_local set_pendingActions] in *.
    set (p := Z.to_nat (pos rl)) in *.
    assert (Hpl : (p ≤ length (line rl))%nat) by (unfold len in *; lia).
    edestruct (IH rest (c :: cache)) as (rl2 & cache2 & -> & Hl & Hq & Hcache);
      [done| |].
    { cbn. unfold len in *. rewrite length_app, length_take. cbn.
      rewrite length_drop. lia. }
    cbn in Hl, Hq, Hcache. exists rl2, cache2. split; [done|].
    replace (Z.to_nat (pos rl + 1)) with (S p) in * by lia.
    split; [|split].
    + rewrite Hl, splice_take, splice_drop by done. cbn.
      rewrite <- app_assoc. cbn. do 4 f_equal. lia.
    + rewrite Hq. cbn. lia.
    + intros Hin. cbn [length] in Hin. rewrite Nat2Z.inj_succ in Hin.
      rewrite Hcache.
      * rewrite (drop_S (line rl) c p) by (apply Hc; unfold len in *; lia).
        cbn. rewrite <- app_assoc. cbn. do 3 f_equal.
        pose proof (splice_drop (line rl) p 0 b Hpl) as Hd.
        rewrite Nat.add_0_r in Hd. exact Hd.
      * unfold len in *. rewrite length_app, length_take. cbn.
        rewrite length_drop. lia.
Qed.

(** One backspace in replace mode: the cursor steps back and the rune
    that was replaced there comes back from the cache. *)
Lemma viReplace_key_backspace (c : rune) (cache : list rune)
    (rl : rlInstance) :
  0 ≤ charBackspace < 128 → 0 < pos rl ≤ len (line rl) →
  viReplace_key [charBackspace] (c :: cache) rl
  = Done (cache,
          set_line (take (Z.to_nat (pos rl) - 1) (line rl)
                    ++ c :: drop (Z.to_nat (pos rl)) (line rl))
            (set_pos (pos rl - 1) rl)).
Proof.
  intros Hb Hp. unfold viReplace_key, firstByte.
  rewrite (proj2 (Z.ltb_lt charBackspace 128)) by lia.
  cbn [mbind outcome_bind]. rewrite Z.eqb_refl. cbn [orb].
  rewrite (proj2 (Z.ltb_lt 0 (pos rl))) by lia. unfold assign.
  cbn [pos line set_pos]. unfold len in *.
  rewrite (proj2 (Z.leb_le 0 (pos rl - 1))) by lia.
  rewrite (proj2 (Z.ltb_lt (pos rl - 1) (Z.of_nat (length (line rl)))))
    by lia.
  cbn. rewrite insert_take_drop by lia.
  replace (Z.to_nat (pos rl - 1)) with (Z.to_nat (pos rl) - 1)%nat by lia.
  replace (S (Z.to_nat (pos rl) - 1)) with (Z.to_nat (pos rl)) by lia.
  done.
Qed.

(** As many backspaces as the cache holds runes, followed by whatever
    comes next: the runes of the cache are back in the buffer. *)
Lemma viReplace_loop_backspace (cs : list rune) :
  ∀ (rest : list gostring) (cache : list rune) (rl : rlInstance),
    0 ≤ charBackspace < 128 →
    Z.of_nat (length cs) ≤ pos rl ≤ len (line rl) →
    ∃ rl2,
      viReplace_loop (replicate (length cs) [charBackspace] ++ rest)
        (cs ++ cache) rl
        = viReplace_loop rest cache rl2
      ∧ line rl2 = take (Z.to_nat (pos rl) - length cs) (line rl) ++ rev cs
                   ++ drop (Z.to_nat (pos rl)) (line rl)
      ∧ pos rl2 = pos rl - Z.of_nat (length cs).
Proof.
  induction cs as [|c cs IH]; intros rest cache rl Hb Hp.
  - exists rl. cbn. rewrite Nat.sub_0_r, take_drop.
    split; [done|]. split; [done|lia].
  - cbn [length] in Hp. rewrite Nat2Z.inj_succ in Hp.
    cbn [length replicate app viReplace_loop].
    rewrite viReplace_key_backspace by (cbn; lia).
    cbn [mbind outcome_bind]. cbn [pos line updateCursor enterVioppMode
      set_local set_pendingActions].
    set (p := Z.to_nat (pos rl)) in *.
    assert (Hpl : (S (length cs) ≤ p ≤ length (line rl))%nat)
      by (unfold len in *; lia).
    edestruct (IH rest cache) as (rl2 & -> & Hl & Hq); [done| |].
    { cbn. unfold len in *. rewrite length_app, length_take. cbn.
      rewrite length_drop. lia. }
    cbn in Hl, Hq. exists rl2. split; [done|]. split; [|lia].
    rewrite Hl. replace (Z.to_nat (pos rl - 1)) with (p - 1)%nat by lia.
    rewrite take_app_le by (rewrite length_take; lia).
    rewrite take_take. rewrite drop_app_ge by (rewrite length_take; lia).
    rewrite length_take.
    replace (p - 1 - (p - 1) `min` length (line rl))%nat with 0%nat by lia.
    cbn. rewrite <- !app_assoc. cbn. f_equal. f_equal. lia.
Qed.

Lemma exitVioppMode_frame (rl : rlInstance) :
  line (exitVioppMode rl) = line rl ∧ pos (exitVioppMode rl) = pos rl.
Proof. unfold exitVioppMode. by destruct (pendingActions rl) as [|[? ?] ?]. Qed.

Lemma viReplace_loop_escape (cache : list rune) (rl : rlInstance) :
  viReplace_loop [] cache rl = Done rl.
Proof.
  destruct rl. reflexivity.
Qed.

(** X5. Replace mode overwrites and extends. With the cursor within
    [0, len(Buffer)], typing n plain keys (one byte each, no backspace)
    and then escape makes the widget return with the typed runes in place
    of the n runes from the cursor on (L[0:pos] ++ typed ++ L[pos+n:], the
    buffer growing when the typing runs past its end) and with the cursor
    on the last typed rune, pos + n - 1. With no key typed the buffer is
    untouched and the cursor is one to the left, at -1 if it was at 0. *)
Theorem viReplace_overwrites (bs : list rune) (rl : rlInstance) :
  Forall plainRune bs → 0 ≤ pos rl ≤ len (line rl) →
  ∃ rl', viReplace (plainKeys bs) rl = Done rl'
    ∧ line rl' = take (Z.to_nat (pos rl)) (line rl) ++ bs
                 ++ drop (Z.to_nat (pos rl) + length bs) (line rl)
    ∧ pos rl' = pos rl + Z.of_nat (length bs) - 1.
Proof.
  intros Hbs Hp. unfold viReplace, undoAppendHistory, updateCursor.
  destruct (viReplace_loop_plain bs [] [] (set_viUndoSkipAppend true rl)
              Hbs Hp) as (rl2 & cache2 & Hloop & Hl & Hq & _).
  rewrite app_nil_r in Hloop. rewrite Hloop, viReplace_loop_escape.
  cbn [mbind outcome_bind]. eexists. split; [reflexivity|].
  destruct (exitVioppMode_frame (set_pos (pos rl2 - 1) rl2)) as [-> ->].
  cbn. rewrite Hl, Hq. cbn. split; [done|lia].
Qed.

(** X6. Backspace undoes replace mode. With the cursor on a rune and
    n plain keys typed that stay within the buffer (pos + n <= len),
    n backspaces and then escape give back the buffer as it was before
    the widget was invoked; the cursor ends one to the left of where it
    started. *)
Theorem viReplace_backspace_restores (bs : list rune) (rl : rlInstance) :
  0 ≤ charBackspace < 128 → Forall plainRune bs →
  0 ≤ pos rl → pos rl + Z.of_nat (length bs) ≤ len (line rl) →
  ∃ rl', viReplace (plainKeys bs ++ replicate (length bs) [charBackspace])
           rl = Done rl'
    ∧ line rl' = line rl ∧ pos rl' = pos rl - 1.
Proof.
  intros Hb Hbs Hp Hin. unfold viReplace, undoAppendHistory, updateCursor.
  destruct (viReplace_loop_plain bs (replicate (length bs) [charBackspace])
              [] (set_viUndoSkipAppend true rl) Hbs)
    as (rl2 & cache2 & Hloop & Hl & Hq & Hcache); [cbn; lia|].
  cbn in Hl, Hq, Hcache. specialize (Hcache Hin). rewrite app_nil_r in Hcache.
  set (p := Z.to_nat (pos rl)) in *. set (n := length bs) in *.
  assert (Hpn : (p + n ≤ length (line rl))%nat) by (unfold len in *; lia).
  assert (Hn : length cache2 = n).
  { rewrite Hcache, length_rev, length_take, length_drop. lia. }
  rewrite Hloop. rewrite <- Hn.
  destruct (viReplace_loop_backspace cache2 [] [] rl2 Hb)
    as (rl3 & Heq & Hl3 & Hq3).
  { rewrite Hn, Hq. unfold len. rewrite Hl, !length_app, length_take,
      length_drop. lia. }
  rewrite !app_nil_r in Heq. rewrite Heq.
  rewrite viReplace_loop_escape. cbn [mbind outcome_bind].
  eexists. split; [reflexivity|].
  destruct (exitVioppMode_frame (set_pos (pos rl3 - 1) rl3)) as [-> ->].
  cbn. split; [|lia].
  rewrite Hl3, Hn, Hq, Hcache, rev_involutive, Hl.
  replace (Z.to_nat (pos rl + Z.of_nat n)) with (p + n)%nat by lia.
  replace (p + n - n)%nat with p by lia.
  rewrite take_app_le, take_take by (rewrite length_take; lia).
  replace (p `min` p)%nat with p by lia.
  assert (Hd : drop (p + n) (take p (line rl) ++ bs ++ drop (p + n) (line rl))
               = drop (p + n) (line rl)).
  { rewrite drop_app_ge by (rewrite length_take; lia).
    rewrite length_take.
    replace (p + n - p `min` length (line rl))%nat with n by lia.
    unfold n. by rewrite drop_app_length. }
  rewrite Hd, <- drop_drop, take_drop. by rewrite take_drop.
Qed.

(** ** Swapping the case *)

(** The loop of [viSwapCase] swaps the case of the [n] runes from the
    cursor on and leaves the cursor after them. *)
Lemma viSwapCase_loop_maps (n : nat) :
  ∀ rl : rlInstance,
    0 ≤ pos rl → pos rl + Z.of_nat n ≤ len (line rl) →
    viSwapCase_loop n rl
    = Done (set_pos (pos rl + Z.of_nat n)
              (set_line
                 (take (Z.to_nat (pos rl)) (line rl)
                  ++ (swapCase <$> take n (drop (Z.to_nat (pos rl)) (line rl)))
                  ++ drop (Z.to_nat (pos rl) + n) (line rl)) rl)).
Proof.
  induction n as [|n IH]; intros rl Hp Hn.
  - cbn [viSwapCase_loop]. change (Z.of_nat 0) with 0.
    rewrite Nat.add_0_r, Z.add_0_r, take_0, fmap_nil, app_nil_l, take_drop.
    by destruct rl.
  - rewrite Nat2Z.inj_succ in Hn. cbn [viSwapCase_loop].
    set (p := Z.to_nat (pos rl)).
    assert (Hpl : (p < length (line rl))%nat) by (unfold len in *; lia).
    destruct (lookup_lt_is_Some_2 (line rl) p Hpl) as [c Hc].
    unfold index, assign.
    rewrite (proj2 (Z.leb_le 0 (pos rl))) by lia. fold p. rewrite Hc.
    cbn [mbind outcome_bind].
    rewrite (proj2 (Z.ltb_lt (pos rl) (len (line rl)))) by lia.
    cbn [andb mbind outcome_bind]. fold p.
    rewrite IH by (cbn; unfold len in *; rewrite ?length_insert; lia).
    f_equal. unfold set_pos, set_line. cbn. f_equal; [|lia].
    replace (Z.to_nat (pos rl + 1)) with (S p) by lia.
    rewrite insert_take_drop by done.
    rewrite splice_take by lia.
    pose proof (splice_drop (line rl) p 0 (swapCase c)) as Hd0.
    rewrite Nat.add_0_r in Hd0. rewrite Hd0 by lia.
    rewrite splice_drop by lia.
    rewrite (drop_S (line rl) c p Hc). cbn.
    rewrite <- !app_assoc. cbn. do 4 f_equal. lia.
Qed.

(** The selected runes, counted from the start of the range. *)
Lemma sliceZ_take (l : list rune) (b e : Z) :
  0 ≤ b → b ≤ e → e ≤ len l →
  take (length (sliceZ b e l)) (drop (Z.to_nat b) l) = sliceZ b e l
  ∧ (Z.to_nat b + length (sliceZ b e l))%nat = Z.to_nat e.
Proof.
  intros Hb Hbe He. unfold sliceZ, len in *.
  rewrite length_drop, length_take.
  replace (Z.to_nat e `min` length l - Z.to_nat b)%nat
    with (Z.to_nat e - Z.to_nat b)%nat by lia.
  split; [|lia]. rewrite take_drop_commute. do 2 f_equal. lia.
Qed.

(** Outside visual mode the loop of [viOperSwapCase] is the loop of
    [viSwapCase]. *)
Lemma viOperSwapCase_loop_plain (n : nat) :
  ∀ rl : rlInstance,
    local rl ≠ visual → viOperSwapCase_loop n rl = viSwapCase_loop n rl.
Proof.
  induction n as [|n IH]; intros rl Hl; [done|].
  cbn [viOperSwapCase_loop viSwapCase_loop]. unfold viSwapCase.
  rewrite bool_decide_eq_false_2 by done.
  destruct (index (line rl) (pos rl)) as [c|]; [|done].
  cbn [mbind outcome_bind].
  destruct (assign (line rl) (pos rl) (swapCase c)) as [l|]; [|done].
  cbn [mbind outcome_bind]. by apply IH.
Qed.

(** X7. vi-swap-case in visual mode, on a selection that resolves to a
    range [b,e) of the buffer: the widget returns with the case of every
    rune of the range swapped and every rune outside it unchanged and in
    its place (L[0:b] ++ swapped L[b:e] ++ L[e:]), with the selection
    cleared and the session back in command mode; when the main mode was
    command mode the cursor is where it was before the call. *)
Theorem viSwapCase_visual (rl : rlInstance) (b e c : Z) :
  local rl = visual → getSelection rl = (b, e, c) →
  0 ≤ b → e ≤ len (line rl) →
  ∃ rl', viSwapCase rl = Done rl'
    ∧ line rl' = take (Z.to_nat b) (line rl)
                 ++ (swapCase <$> sliceZ b e (line rl))
                 ++ drop (Z.to_nat e) (line rl)
    ∧ main rl' = vicmd ∧ local rl' = nolocal
    ∧ mark rl' = -1 ∧ activeRegion rl' = false
    ∧ (main rl = vicmd → pos rl' = pos rl).
Proof.
  intros Hv Hsel Hb He.
  pose proof (getSelection_ordered _ _ _ _ Hsel) as Hbe.
  destruct (sliceZ_take (line rl) b e Hb Hbe He) as [Ht Hlen].
  unfold viSwapCase. rewrite bool_decide_eq_true_2 by done.
  rewrite Hsel. cbn [line set_pos resetSelection set_mark set_activeRegion].
  rewrite slice_within by done. cbn [mbind outcome_bind].
  rewrite viSwapCase_loop_maps by (cbn; unfold len in *; lia).
  cbn [mbind outcome_bind pos line set_pos]. unfold updateCursor.
  rewrite viCommandMode_fields. eexists. split; [reflexivity|].
  cbn. rewrite Ht, Hlen. do 5 (split; [done|]).
  intros ->. by rewrite bool_decide_eq_false_2.
Qed.

(** X8. vi-oper-swap-case called back with an active region outside
    visual mode (the second phase of the operator), on a selection that
    resolves to a range [b,e) of the buffer: the widget returns with the
    case of every rune of the range swapped and every rune outside it
    unchanged and in its place, with the selection cleared, the cursor at
    the restore position of the selection and the modes as they were. *)
Theorem viOperSwapCase_region (rl : rlInstance) (b e c : Z) :
  activeRegion rl = true → local rl ≠ visual →
  getSelection rl = (b, e, c) → 0 ≤ b → e ≤ len (line rl) →
  ∃ rl', viOperSwapCase rl = Done rl'
    ∧ line rl' = take (Z.to_nat b) (line rl)
                 ++ (swapCase <$> sliceZ b e (line rl))
                 ++ drop (Z.to_nat e) (line rl)
    ∧ pos rl' = c ∧ mark rl' = -1 ∧ activeRegion rl' = false
    ∧ main rl' = main rl ∧ local rl' = local rl.
Proof.
  intros Ha Hv Hsel Hb He.
  pose proof (getSelection_ordered _ _ _ _ Hsel) as Hbe.
  destruct (sliceZ_take (line rl) b e Hb Hbe He) as [Ht Hlen].
  unfold viOperSwapCase. rewrite Ha. cbn [orb].
  rewrite Hsel. cbn [line set_pos resetSelection set_mark set_activeRegion].
  rewrite slice_within by done. cbn [mbind outcome_bind].
  rewrite viOperSwapCase_loop_plain by done.
  rewrite viSwapCase_loop_maps by (cbn; unfold len in *; lia).
  cbn [mbind outcome_bind pos line local set_pos set_line].
  rewrite bool_decide_eq_false_2 by done.
  eexists. split; [reflexivity|]. cbn. by rewrite Ht, Hlen.
Qed.

(** ** Killing and changing to the end of the line *)

(** X9. vi-kill-eol, with the cursor within [0, len(Buffer)] and a save
    to the registers that leaves buffer and cursor alone: the widget
    returns, the buffer is cut at the cursor (L[0:pos]), the text handed
    to the register store is the part cut off (L[pos:]), and the cursor
    steps back onto the last rune that is left (pos - 1, or 0 when nothing
    is left), so that it is within the bounds of command mode. *)
Theorem viKillEol_truncates (rl : rlInstance) :
  (∀ buf r, line (saveBufToRegister buf r) = line r
            ∧ pos (saveBufToRegister buf r) = pos r) →
  0 ≤ pos rl ≤ len (line rl) →
  ∃ rl', viKillEol rl = Done rl'
    ∧ line rl' = take (Z.to_nat (pos rl)) (line rl)
    ∧ registers rl'
      = registers (saveBufToRegister (drop (Z.to_nat (pos rl)) (line rl)) rl)
    ∧ pos rl' = Z.max 0 (pos rl - 1)
    ∧ 0 ≤ pos rl' ≤ len (line rl')
    ∧ (line rl' ≠ [] → pos rl' = len (line rl') - 1).
Proof.
  intros Hsave Hp. unfold viKillEol, slice_from, slice_to.
  rewrite (proj2 (Z.ltb_ge (pos rl) 0)) by lia.
  rewrite slice_within by lia. cbn [mbind outcome_bind].
  unfold sliceZ. rewrite take_ge by (unfold len; lia).
  set (saved := saveBufToRegister _ rl).
  destruct (Hsave (drop (Z.to_nat (pos rl)) (line rl)) rl) as [Hl Hq].
  fold saved in Hl, Hq. rewrite Hl, Hq.
  rewrite slice_within by lia. cbn [mbind outcome_bind].
  unfold sliceZ, resetHelpers, updateHelpers. rewrite drop_0.
  rewrite addIteration_reset. eexists. split; [reflexivity|].
  cbn [line pos registers set_line set_viIteration].
  assert (Hlen : len (take (Z.to_nat (pos rl)) (line rl)) = pos rl)
    by (unfold len in *; rewrite length_take; lia).
  rewrite Hlen.
  destruct (Z.ltb_spec 0 (pos rl)); cbn [line pos registers set_pos set_line];
    rewrite ?Hlen, ?Hq; (split; [done|]); (split; [done|]);
    (split; [lia|]); (split; [lia|]); intros Hne; [lia|].
  exfalso. apply Hne. replace (pos rl) with 0 by lia. done.
Qed.

(** X10. vi-change-eol, with the cursor on or after the second column
    (1 <= pos <= len(Buffer)) and a save to the registers that leaves
    buffer and cursor alone: the widget returns in insert mode with the
    buffer cut at the cursor (L[0:pos]) and the cursor at its end; the
    text handed to the register store starts one rune before the cut
    (L[pos-1:]), one rune more than the widget removes. *)
Theorem viChangeEol_truncates (rl : rlInstance) :
  (∀ buf r, line (saveBufToRegister buf r) = line r
            ∧ pos (saveBufToRegister buf r) = pos r) →
  1 ≤ pos rl ≤ len (line rl) →
  ∃ rl', viChangeEol rl = Done rl'
    ∧ line rl' = take (Z.to_nat (pos rl)) (line rl)
    ∧ registers rl'
      = registers
          (saveBufToRegister (drop (Z.to_nat (pos rl) - 1) (line rl)) rl)
    ∧ pos rl' = pos rl ∧ pos rl' = len (line rl')
    ∧ main rl' = viins ∧ local rl' = nolocal.
Proof.
  intros Hsave Hp. unfold viChangeEol, slice_from, slice_to.
  rewrite slice_within by lia. cbn [mbind outcome_bind].
  unfold sliceZ. rewrite take_ge by (unfold len; lia).
  replace (Z.to_nat (pos rl - 1)) with (Z.to_nat (pos rl) - 1)%nat by lia.
  set (saved := saveBufToRegister _ rl).
  destruct (Hsave (drop (Z.to_nat (pos rl) - 1) (line rl)) rl) as [Hl Hq].
  fold saved in Hl, Hq. rewrite Hl, Hq.
  rewrite slice_within by lia. cbn [mbind outcome_bind].
  unfold sliceZ, resetHelpers, viInsertMode, updateCursor. rewrite drop_0.
  rewrite !addIteration_reset. eexists. split; [reflexivity|]. cbn.
  rewrite Hq. unfold len in *. rewrite length_take.
  repeat split; try done. lia.
Qed.

(** ** Editing the line in an editor *)

(** X11. vi-edit-command-line, called with a cursor that is not negative.
    When the editor fails, returns an empty buffer or returns the text it
    was given, the session is the one of the call with the undo-skip flag
    set. Otherwise the buffer is the one the editor returned and the cursor
    is within it: where it was when that is not past the end of the new
    buffer, on its last rune otherwise. *)
Theorem viEditCommandLine_cursor (rl : rlInstance) (new : list rune)
    (err : bool) :
  StartEditorWithBuffer
    (match GetMultiLine with None => line rl | Some f => f (line rl) end)
    = (new, err) →
  0 ≤ pos rl →
  (err = true ∨ new = []
   ∨ string_of_runes new
     = string_of_runes
         (match GetMultiLine with None => line rl | Some f => f (line rl) end)
   → viEditCommandLine rl = set_viUndoSkipAppend true rl)
  ∧ (err = false → new ≠ [] →
     string_of_runes new
     ≠ string_of_runes
         (match GetMultiLine with None => line rl | Some f => f (line rl) end)
     → line (viEditCommandLine rl) = new
       ∧ 0 ≤ pos (viEditCommandLine rl) ≤ len new
       ∧ (pos rl ≤ len new → pos (viEditCommandLine rl) = pos rl)
       ∧ (len new < pos rl → pos (viEditCommandLine rl) = len new - 1)).
Proof.
  intros Hed Hp. unfold viEditCommandLine, clearHelpers. rewrite Hed.
  split.
  - intros [->|[->|Heq]]; [done| |].
    + by rewrite orb_true_r.
    + by rewrite (bool_decide_eq_true_2 _ Heq), orb_true_r.
  - intros -> Hne Hdiff. rewrite (bool_decide_eq_false_2 _ Hdiff).
    assert (Hlen : 0 < len new)
      by (unfold len; destruct new; [done|cbn; lia]).
    rewrite (proj2 (Z.eqb_neq (len new) 0)) by lia. cbn [orb line set_line].
    destruct (Z.ltb_spec (len new) (pos rl)); cbn; (split; [done|lia]).
Qed.

(** ** vi-match-bracket *)

Lemma nextClosing_spec (l : list rune) (k : Z) :
  match nextClosing l k with
  | Some r => ∃ (i : nat) (c : rune),
                r = k + Z.of_nat i ∧ l !! i = Some c ∧ closing c
                ∧ ∀ (j : nat) (c' : rune),
                    (j < i)%nat → l !! j = Some c' → ¬ closing c'
  | None => ∀ (j : nat) (c' : rune), l !! j = Some c' → ¬ closing c'
  end.
Proof.
  revert k. induction l as [|c l IH]; intros k; cbn [nextClosing].
  - intros j c'. by rewrite lookup_nil.
  - fold (closing c). case_bool_decide as Hc.
    + exists 0%nat, c. split; [lia|]. split; [done|]. split; [done|].
      intros j c' Hj. lia.
    + specialize (IH (k + 1)). destruct (nextClosing l (k + 1)) as [r|].
      * destruct IH as (i & c1 & -> & Hi & Hc1 & Hmin). exists (S i), c1.
        split; [lia|]. split; [done|]. split; [done|].
        intros [|j] c' Hj; cbn; [congruence|]. apply Hmin. lia.
      * intros [|j] c'; cbn; [congruence|]. apply IH.
Qed.

(** X12. vi-match-bracket with the cursor on a rune that is not a
    bracket. When no closing bracket follows the cursor, the widget only
    sets the undo-skip flag: the cursor does not move. When one follows,
    the cursor first moves onto the first of them, and the jump to the
    matching bracket is taken from there. *)
Theorem viMatchBracket_seeks_closing (rl : rlInstance) (c : rune) :
  0 ≤ pos rl → line rl !! Z.to_nat (pos rl) = Some c → isBracket c = false →
  ((∀ (j : nat) (c' : rune),
      (Z.to_nat (pos rl) < j)%nat → line rl !! j = Some c' → ¬ closing c') →
   viMatchBracket rl = Done (set_viUndoSkipAppend true rl))
  ∧ (∀ (j : nat) (cj : rune),
       (Z.to_nat (pos rl) < j)%nat → line rl !! j = Some cj → closing cj →
       (∀ (i : nat) (c' : rune),
          (Z.to_nat (pos rl) < i < j)%nat → line rl !! i = Some c' →
          ¬ closing c') →
       viMatchBracket rl
       = Done (moveCursorByAdjust
                 (viJumpBracket
                    (set_pos (Z.of_nat j) (set_viUndoSkipAppend true rl)))
                 (set_pos (Z.of_nat j) (set_viUndoSkipAppend true rl)))).
Proof.
  intros Hp Hc Hnb. unfold viMatchBracket, index.
  cbn [line pos set_viUndoSkipAppend].
  rewrite (proj2 (Z.leb_le 0 (pos rl))) by lia. rewrite Hc.
  cbn [mbind outcome_bind]. rewrite Hnb. cbn [negb].
  set (p := Z.to_nat (pos rl)).
  replace (Z.to_nat (pos rl + 1)) with (S p) by lia.
  pose proof (nextClosing_spec (drop (S p) (line rl)) (pos rl + 1)) as Hn.
  destruct (nextClosing (drop (S p) (line rl)) (pos rl + 1)) as [r|].
  - destruct Hn as (i & ci & -> & Hi & Hci & Hmin).
    rewrite lookup_drop in Hi. split.
    + intros Hno. exfalso. apply (Hno (S p + i)%nat ci); [lia|done|done].
    + intros j cj Hj Hcj Hclosing Hfirst.
      assert (j = (S p + i)%nat) as ->.
      { destruct (Nat.lt_trichotomy j (S p + i)) as [Hlt|[->|Hgt]]; [|done|].
        - exfalso. apply (Hmin (j - S p)%nat cj); [lia| |done].
          rewrite lookup_drop. by replace (S p + (j - S p))%nat with j by lia.
        - exfalso. by apply (Hfirst (S p + i)%nat ci); [lia| |]. }
      f_equal.
      assert (Hmove : moveCursorByAdjust (pos rl + 1 + Z.of_nat i - pos rl)
                        (set_viUndoSkipAppend true rl)
                      = set_pos (Z.of_nat (S p + i))
                          (set_viUndoSkipAppend true rl)).
      { unfold moveCursorByAdjust. cbn [line pos main set_viUndoSkipAppend].
        apply lookup_lt_Some in Hcj. f_equal. unfold len.
        destruct (bool_decide (main rl = vicmd)
                  && (0 <? Z.of_nat (length (line rl)))); lia. }
      by rewrite Hmove.
  - split; [done|].
    intros j cj Hj Hcj Hclosing _. exfalso.
    apply (Hn (j - S p)%nat cj); [|done].
    rewrite lookup_drop. by replace (S p + (j - S p))%nat with j by lia.
Qed.

(** ** Selecting a word *)

(** The jumps of a word motion: a motion, and after one round at least the
    cursor is within the buffer. *)
Lemma jumps_motion (jump : rlInstance → Z) (vii : Z) (rl : rlInstance) :
  let r := times vii (fun rl => moveCursorByAdjust (jump rl) rl) rl in
  (line r = line rl ∧ main r = main rl ∧ local r = local rl
   ∧ mark r = mark rl ∧ activeRegion r = activeRegion rl)
  ∧ (1 ≤ vii → 0 ≤ pos r ≤ len (line rl)).
Proof.
  cbn zeta. split.
  - apply (times_invariant (fun r => line r = line rl ∧ main r = main rl
      ∧ local r = local rl ∧ mark r = mark rl
      ∧ activeRegion r = activeRegion rl)); [|done].
    intros r Hr. exact Hr.
  - intros Hvii. unfold times.
    destruct (Z.to_nat vii) as [|n] eqn:Hn; [lia|]. rewrite Nat.iter_succ.
    set (r := Nat.iter n (fun rl => moveCursorByAdjust (jump rl) rl) rl).
    assert (Hl : line (times (Z.of_nat n)
                        (fun rl => moveCursorByAdjust (jump rl) rl) rl)
                 = line rl).
    { apply (times_invariant (fun r => line r = line rl)); [|done].
      intros r' Hr'. exact Hr'. }
    unfold times in Hl. rewrite Nat2Z.id in Hl. fold r in Hl.
    unfold moveCursorByAdjust. cbn [pos set_pos]. rewrite Hl. unfold len.
    destruct (bool_decide (main r = vicmd)
              && (0 <? Z.of_nat (length (line rl)))) eqn:Hu; [|lia].
    apply andb_prop in Hu as [_ Hu]. apply Z.ltb_lt in Hu. lia.
Qed.

Lemma getViIterations_positive (rl : rlInstance) :
  1 ≤ (getViIterations rl).1
  ∧ (getViIterations rl).2 = set_viIteration "" rl.
Proof.
  unfold getViIterations. cbn. split; [|done].
  destruct (parseDigits (viIteration rl) 0) as [n|]; [|lia].
  destruct (Z.leb_spec 1 n); lia.
Qed.

Lemma viBackwardWord_clamped : clampedMotion viBackwardWord.
Proof.
  split; intros rl; unfold viBackwardWord;
    destruct (getViIterations_positive (set_viUndoSkipAppend true rl))
      as [Hpos Hrl];
    destruct (getViIterations (set_viUndoSkipAppend true rl)) as [vii rl1];
    cbn [fst snd] in Hpos, Hrl; subst rl1;
    destruct (jumps_motion (viJumpB tokeniseLine) vii
                (set_viIteration "" (set_viUndoSkipAppend true rl)))
      as [Hf Hb]; [exact Hf | exact (Hb Hpos)].
Qed.

Lemma viBackwardBlankWord_clamped : clampedMotion viBackwardBlankWord.
Proof.
  split; intros rl; unfold viBackwardBlankWord;
    destruct (getViIterations_positive (set_viUndoSkipAppend true rl))
      as [Hpos Hrl];
    destruct (getViIterations (set_viUndoSkipAppend true rl)) as [vii rl1];
    cbn [fst snd] in Hpos, Hrl; subst rl1;
    destruct (jumps_motion (viJumpB tokeniseSplitSpaces) vii
                (set_viIteration "" (set_viUndoSkipAppend true rl)))
      as [Hf Hb]; [exact Hf | exact (Hb Hpos)].
Qed.

Lemma viForwardWordEnd_motion : motion viForwardWordEnd.
Proof.
  intros rl. unfold viForwardWordEnd.
  destruct (getViIterations (set_viUndoSkipAppend true rl)) as [vii rl1]
    eqn:Hg. unfold getViIterations in Hg. injection Hg as _ <-.
  exact (proj1 (jumps_motion (viJumpE tokeniseLine) vii _)).
Qed.

Lemma viForwardBlankWordEnd_motion : motion viForwardBlankWordEnd.
Proof.
  intros rl. unfold viForwardBlankWordEnd.
  destruct (getViIterations (set_viUndoSkipAppend true rl)) as [vii rl1]
    eqn:Hg. unfold getViIterations in Hg. injection Hg as _ <-.
  exact (proj1 (jumps_motion (viJumpE tokeniseSplitSpaces) vii _)).
Qed.

Lemma viForwardBlankWord_motion : motion viForwardBlankWord.
Proof.
  intros rl. unfold viForwardBlankWord.
  destruct ((pos rl =? 0) && (len (line rl) =? 0)); [done|].
  destruct (getViIterations (set_viUndoSkipAppend true rl)) as [vii rl1]
    eqn:Hg. unfold getViIterations in Hg. injection Hg as _ <-.
  exact (proj1 (jumps_motion (viJumpW tokeniseSplitSpaces) vii _)).
Qed.

Lemma viForwardWord_motion : motion viForwardWord.
Proof.
  intros rl. unfold viForwardWord. cbn [pos line set_viUndoSkipAppend].
  destruct ((pos rl =? 0) && (len (line rl) =? 0)); [done|].
  destruct (getViIterations (set_viUndoSkipAppend true rl)) as [vii rl1]
    eqn:Hg. unfold getViIterations in Hg. injection Hg as _ <-.
  pose proof (proj1 (jumps_motion (viJumpW tokeniseLine) vii
    (set_viIteration "" (set_viUndoSkipAppend true rl)))) as Hf.
  cbn zeta in Hf.
  by destruct (bool_decide _ && activeRegion _).
Qed.

Lemma inRegionMode_local (r rl : rlInstance) :
  local r = local rl → inRegionMode r = inRegionMode rl.
Proof. unfold inRegionMode. by intros ->. Qed.

Lemma inRegionMode_nolocal (rl : rlInstance) :
  inRegionMode rl = false ↔ local rl = nolocal.
Proof. unfold inRegionMode. destruct (local rl); by repeat case_bool_decide. Qed.

(** The shape the four select widgets share: a step to the right, a
    backward motion, the mark, a forward motion and, in a region mode, the
    active region with the cursor as [adjust] leaves it. *)
Lemma select_frame (back forward adjust : rlInstance → rlInstance)
    (rl : rlInstance) :
  clampedMotion back → motion forward → motion adjust →
  let r1 := back (set_pos (pos rl + 1) rl) in
  let r2 := if inRegionMode r1 then set_mark (pos r1) r1 else r1 in
  let r3 := forward r2 in
  let r := if inRegionMode r3 then set_activeRegion true (adjust r3)
           else r3 in
  line r = line rl ∧ main r = main rl ∧ local r = local rl
  ∧ (local rl = nolocal →
     mark r = mark rl ∧ activeRegion r = activeRegion rl)
  ∧ (local rl ≠ nolocal →
     activeRegion r = true ∧ 0 ≤ mark r ≤ len (line rl)).
Proof.
  intros [Hback Hbound] Hforward Hadjust. cbn zeta.
  destruct (Hback (set_pos (pos rl + 1) rl)) as (Hl1 & Hm1 & Hc1 & Hk1 & Ha1).
  specialize (Hbound (set_pos (pos rl + 1) rl)).
  set (r1 := back (set_pos (pos rl + 1) rl)) in *.
  cbn [line main local mark activeRegion set_pos] in *.
  rewrite (inRegionMode_local r1 rl Hc1).
  set (r2 := if inRegionMode rl then set_mark (pos r1) r1 else r1).
  assert (H2 : line r2 = line rl ∧ main r2 = main rl ∧ local r2 = local rl
               ∧ activeRegion r2 = activeRegion rl)
    by (unfold r2; by destruct (inRegionMode rl)).
  destruct H2 as (Hl2 & Hm2 & Hc2 & Ha2).
  destruct (Hforward r2) as (Hl3 & Hm3 & Hc3 & Hk3 & Ha3).
  set (r3 := forward r2) in *.
  rewrite (inRegionMode_local r3 rl) by congruence.
  destruct (Hadjust r3) as (Hl4 & Hm4 & Hc4 & Hk4 & Ha4).
  destruct (inRegionMode rl) eqn:Hin.
  - cbn [line main local mark activeRegion set_activeRegion].
    split; [congruence|]. split; [congruence|]. split; [congruence|].
    split.
    + intros Hno. apply inRegionMode_nolocal in Hno. congruence.
    + intros _. split; [done|]. rewrite Hk4, Hk3. unfold r2. cbn. done.
  - split; [congruence|]. split; [congruence|]. split; [congruence|].
    split.
    + intros _. unfold r2 in *. split; congruence.
    + intros Hno. apply inRegionMode_nolocal in Hin. done.
Qed.

(** X13. The four select-word widgets (a word, a blank word, in a word,
    in a blank word), for every session, count and word jump: the buffer
    and the modes are never changed. Called outside visual and
    operator-pending mode they leave the mark and the active-region flag as
    they are; called in one of these modes they set the active-region flag
    and leave the mark within the buffer, 0 <= mark <= len(Buffer),
    wherever the cursor was. *)
Theorem selectWord_frame :
  Forall (fun w : rlInstance → rlInstance => ∀ rl : rlInstance,
            line (w rl) = line rl ∧ main (w rl) = main rl
            ∧ local (w rl) = local rl
            ∧ (local rl = nolocal →
               mark (w rl) = mark rl ∧ activeRegion (w rl) = activeRegion rl)
            ∧ (local rl ≠ nolocal →
               activeRegion (w rl) = true ∧ 0 ≤ mark (w rl) ≤ len (line rl)))
    selectWord.
Proof.
  assert (Hdec : motion (fun rl => set_pos (pos rl - 1) rl)) by done.
  assert (Hid : motion (fun rl => rl)) by done.
  unfold selectWord. repeat apply Forall_cons_2; [| | | |apply Forall_nil_2];
    intros rl.
  - exact (select_frame viBackwardBlankWord viForwardBlankWord _ rl
             viBackwardBlankWord_clamped viForwardBlankWord_motion Hdec).
  - exact (select_frame viBackwardWord viForwardWord _ rl
             viBackwardWord_clamped viForwardWord_motion Hdec).
  - exact (select_frame viBackwardBlankWord viForwardBlankWordEnd _ rl
             viBackwardBlankWord_clamped viForwardBlankWordEnd_motion Hid).
  - exact (select_frame viBackwardWord viForwardWordEnd _ rl
             viBackwardWord_clamped viForwardWordEnd_motion Hid).
Qed.

(** ** Replacing the selection *)

Lemma viReplaceChars_loop_fills (n : nat) (k : rune) (rest : gostring) :
  ∀ (i : Z) (l : list rune),
    0 ≤ i → i + Z.of_nat n ≤ len l →
    viReplaceChars_loop n i (k :: rest) l
    = Done (take (Z.to_nat i) l ++ replicate n k
            ++ drop (Z.to_nat i + n) l).
Proof.
  induction n as [|n IH]; intros i l Hi Hn.
  - cbn [viReplaceChars_loop replicate app].
    by rewrite Nat.add_0_r, take_drop.
  - rewrite Nat2Z.inj_succ in Hn. cbn [viReplaceChars_loop].
    unfold index, runes_of_string, assign.
    change ((k :: rest) !! Z.to_nat 0) with (Some k).
    change (0 <=? 0) with true. cbn [mbind outcome_bind].
    rewrite (proj2 (Z.leb_le 0 i)), (proj2 (Z.ltb_lt i (len l))) by lia.
    cbn [andb mbind outcome_bind]. set (p := Z.to_nat i).
    assert (Hpl : (p < length l)%nat) by (unfold len in *; lia).
    rewrite IH by (unfold len in *; rewrite ?length_insert; lia).
    f_equal. replace (Z.to_nat (i + 1)) with (S p) by lia.
    rewrite insert_take_drop by done. rewrite splice_take by lia.
    rewrite splice_drop by lia. rewrite <- !app_assoc. cbn.
    do 4 f_equal. lia.
Qed.

(** X14. vi-replace-chars on a live selection (active region, or visual
    mode) that resolves to a range [b,e) of the buffer, with an argument
    key that is not escape: the widget returns with every rune of the
    range replaced by the first rune of the key and every rune outside it
    unchanged and in its place, the selection cleared and the session in
    command mode; when the main mode was command mode the cursor is at b,
    the start of the range. *)
Theorem viReplaceChars_region (rl : rlInstance) (k : rune) (rest : gostring)
    (b e c : Z) :
  activeRegion rl = true ∨ local rl = visual →
  getSelection rl = (b, e, c) → 0 ≤ b → e ≤ len (line rl) →
  ∃ rl', viReplaceChars (k :: rest, false) rl = Done rl'
    ∧ line rl' = take (Z.to_nat b) (line rl)
                 ++ replicate (Z.to_nat (e - b)) k
                 ++ drop (Z.to_nat e) (line rl)
    ∧ main rl' = vicmd ∧ local rl' = nolocal
    ∧ mark rl' = -1 ∧ activeRegion rl' = false
    ∧ (main rl = vicmd → pos rl' = b).
Proof.
  intros Hregion Hsel Hb He.
  pose proof (getSelection_ordered _ _ _ _ Hsel) as Hbe.
  unfold viReplaceChars, updateCursor. rewrite exitVioppMode_enterVioppMode.
  cbn [activeRegion local set_viUndoSkipAppend].
  assert (activeRegion rl || bool_decide (local rl = visual) = true) as ->.
  { destruct Hregion as [->| ->]; [done|]. apply orb_true_r. }
  assert (getSelection (set_viUndoSkipAppend true rl) = (b, e, c)) as ->
    by done.
  cbn [line set_viUndoSkipAppend].
  rewrite viReplaceChars_loop_fills by lia. cbn [mbind outcome_bind].
  rewrite viCommandMode_fields. eexists. split; [reflexivity|]. cbn.
  replace (Z.to_nat b + Z.to_nat (e - b))%nat with (Z.to_nat e) by lia.
  do 5 (split; [done|]). intros ->. by rewrite bool_decide_eq_false_2.
Qed.

End Widgets.

(** * Concrete sessions: the properties at work *)



(** C3 at work: on the selection "ab" of "xaby", in visual mode, the
    visual-mode widget leaves the region mode and the visual-line widget
    changes the variant. *)
Lemma visual_mode_toggle_witness :
  local selectionAB = visual ∧ visualLine selectionAB = false
  ∧ toggledOff selectionAB (viVisualMode selectionAB)
  ∧ variantEntered true selectionAB (viVisualLineMode selectionAB).
Proof.
  split; [reflexivity|]. split; [reflexivity|].
  apply (visual_mode_toggle selectionAB); reflexivity.
Defined.



(** C6 at work: the selection "ab" of "xaby" surrounded with a star gives
    "x*ab*y". *)
Lemma viAddSurround_splices_witness :
  ∃ rl', viAddSurround ([42], false) selectionAB = Done rl'
    ∧ line rl' = [120; 42; 97; 98; 42; 121]
    ∧ mark rl' = -1 ∧ activeRegion rl' = false.
Proof.
  apply (viAddSurround_splices selectionAB 42 1 3 1);
    [reflexivity | lia | unfold selectionAB, len; cbn; lia | reflexivity].
Defined.

(** C10, the claim as stated fails on the empty buffer: with vi-delete
    pending there (operator-pending mode, active-region flag set),
    vi-forward-word returns before its jumps and the cursor stays at 0; it
    is not decremented by one. *)
Lemma viForwardWord_empty_line_counterexample :
  local pendingOnEmpty = viopp ∧ activeRegion pendingOnEmpty = true
  ∧ pos (wordJumps noJump pendingOnEmpty) = 0
  ∧ pos (viForwardWord noJump pendingOnEmpty) = 0
  ∧ pos (viForwardWord noJump pendingOnEmpty)
    ≠ pos (wordJumps noJump pendingOnEmpty) - 1.
Proof. repeat split; (reflexivity || discriminate). Qed.





(** C7 at work: after the digit 1 the key 0 is a digit; with no count it
    is the motion to column 0. *)
Lemma viDigitOrBeginningOfLine_overload_witness :
  viIteration (viDigitOrBeginningOfLine (set_viIteration "1" (session abc 2)))
    = "10"%string
  ∧ viIteration (viDigitOrBeginningOfLine (session abc 2)) = ""%string
  ∧ pos (viDigitOrBeginningOfLine (session abc 2)) = 0.
Proof.
  destruct (viDigitOrBeginningOfLine_overload
              (set_viIteration "1" (session abc 2))) as (Hdigit & _ & _).
  destruct (viDigitOrBeginningOfLine_overload (session abc 2))
    as (_ & Hmotion & _).
  split; [apply Hdigit; discriminate|]. apply Hmotion. reflexivity.
Defined.

(** C8 at work: on "abc" with the cursor on the c, no count gives column 0
    and the count 1 gives column 1. *)
Lemma viGotoColumn_count_absence_witness :
  pos (viGotoColumn (session abc 2)) = 0
  ∧ pos (viGotoColumn (set_viIteration "1" (session abc 2))) = 1.
Proof.
  destruct (viGotoColumn_count_absence (session abc 2)) as (_ & Habsent & _).
  destruct (viGotoColumn_count_absence (set_viIteration "1" (session abc 2)))
    as (_ & _ & Hone & _).
  split; [apply Habsent; reflexivity|]. apply Hone. reflexivity.
Defined.

(** C9 at work: on "a b" the cursor goes to index 1, on "abc" it stays. *)
Lemma viFirstNonBlank_first_space_witness :
  pos (viFirstNonBlank (session [97; 32; 98] 2)) = 1
  ∧ pos (viFirstNonBlank (session abc 2)) = 2.
Proof.
  destruct (viFirstNonBlank_first_space (session [97; 32; 98] 2))
    as (_ & Hfirst & _).
  destruct (viFirstNonBlank_first_space (session abc 2)) as (_ & _ & Hnone).
  split.
  - apply (Hfirst 1%nat); [reflexivity|].
    intros [|j] Hj; [discriminate|lia].
  - apply Hnone. unfold session, abc. cbn.
    rewrite !not_elem_of_cons. repeat split; try discriminate.
    apply not_elem_of_nil.
Defined.

(** vi-kill-eol, the sibling of vi-change-eol, slices the buffer from [pos]
    and not from [pos - 1]: with the cursor at 0, where vi-change-eol
    panics, it returns (here with a save that leaves the session alone). *)
Lemma viKillEol_at_start :
  viKillEol (fun _ rl => rl) (session abc 0)
    = Done (set_line [] (session abc 0))
  ∧ viKillEol (fun _ rl => rl) (session [] 0) = Done (session [] 0).
Proof. split; reflexivity. Qed.

(** X1 at work: vi-forward-char on the last letter of "abc" in command
    mode. *)
Lemma viForwardChar_bounds_witness :
  0 ≤ pos (session abc 2) ≤ len (line (session abc 2))
  ∧ 0 ≤ pos (viForwardChar (session abc 2)) ≤ 2.
Proof.
  assert (H : 0 ≤ pos (session abc 2) ≤ len (line (session abc 2)))
    by (unfold session, abc, len; cbn; lia).
  split; [exact H|].
  destruct (viForwardChar_bounds (session abc 2) H) as [[Hlo _] Hcmd].
  split; [exact Hlo|]. apply Hcmd; [reflexivity|].
  unfold session, abc, len; cbn; lia.
Defined.

(** X2 at work: vi-backward-char on the last letter of "abc". *)
Lemma viBackwardChar_bounds_witness :
  0 ≤ pos (session abc 2) ≤ len (line (session abc 2))
  ∧ line (viBackwardChar (session abc 2)) = abc
  ∧ 0 ≤ pos (viBackwardChar (session abc 2)) ≤ 2.
Proof.
  assert (H : 0 ≤ pos (session abc 2) ≤ len (line (session abc 2)))
    by (unfold session, abc, len; cbn; lia).
  split; [exact H|].
  destruct (viBackwardChar_bounds (session abc 2) H)
    as (Hl & [Hlo _] & Hle & _).
  split; [exact Hl|]. split; [exact Hlo|exact Hle].
Defined.

(** X3 at work: back and forth on the last letter of "abc". *)
Lemma viBackwardChar_viForwardChar_witness :
  pos (viForwardChar (viBackwardChar (session abc 2))) = 2
  ∧ line (viForwardChar (viBackwardChar (session abc 2))) = abc.
Proof.
  apply (viBackwardChar_viForwardChar (session abc 2));
    unfold session, abc, len; cbn; lia.
Defined.

(** X4 at work: escape typed at the end of "abc" in insert mode. *)
Lemma viCommandMode_cursor_witness :
  main (viCommandMode (typing abc 3)) = vicmd
  ∧ pos (viCommandMode (typing abc 3)) = 2.
Proof.
  destruct (viCommandMode_cursor (typing abc 3))
    as (_ & Hm & _ & _ & _ & _ & Hins & _);
    [unfold typing, session, abc, len; cbn; lia|].
  split; [exact Hm|].
  destruct (Hins eq_refl) as [_ Hp]; [discriminate|]. exact Hp.
Defined.

(** X5 at work: "xy" typed in replace mode on the c of "abc". *)
Lemma viReplace_overwrites_witness :
  ∃ rl', viReplace 127 8 (plainKeys [120; 121]) (session abc 2) = Done rl'
    ∧ line rl' = [97; 98; 120; 121] ∧ pos rl' = 3.
Proof.
  apply (viReplace_overwrites 127 8 [120; 121] (session abc 2)).
  - repeat constructor; unfold plainRune; lia.
  - unfold session, abc, len; cbn; lia.
Defined.

(** X6 at work: "xy" typed in replace mode on the b of "abc" and erased
    with two backspaces. *)
Lemma viReplace_backspace_restores_witness :
  ∃ rl',
    viReplace 127 8 (plainKeys [120; 121] ++ replicate 2 [127])
      (session abc 1) = Done rl'
    ∧ line rl' = abc ∧ pos rl' = 0.
Proof.
  apply (viReplace_backspace_restores 127 8 [120; 121] (session abc 1)).
  - lia.
  - repeat constructor; unfold plainRune; lia.
  - cbn; lia.
  - unfold session, abc, len; cbn; lia.
Defined.

(** X7 at work: the selection "ab" of "xaby" in upper case. *)
Lemma viSwapCase_visual_witness :
  ∃ rl', viSwapCase asciiIsLower asciiToUpper asciiToLower selectionAB
         = Done rl'
    ∧ line rl' = [120; 65; 66; 121] ∧ main rl' = vicmd
    ∧ local rl' = nolocal ∧ mark rl' = -1 ∧ activeRegion rl' = false
    ∧ (main selectionAB = vicmd → pos rl' = pos selectionAB).
Proof.
  apply (viSwapCase_visual asciiIsLower asciiToUpper asciiToLower
           selectionAB 1 3 1);
    [reflexivity | reflexivity | lia | unfold selectionAB, len; cbn; lia].
Defined.

(** X8 at work: the region "ab" of "xaby" in upper case, the operator
    called back. *)
Lemma viOperSwapCase_region_witness :
  ∃ rl', viOperSwapCase asciiIsLower asciiToUpper asciiToLower regionAB
         = Done rl'
    ∧ line rl' = [120; 65; 66; 121] ∧ pos rl' = 1 ∧ mark rl' = -1
    ∧ activeRegion rl' = false ∧ main rl' = main regionAB
    ∧ local rl' = local regionAB.
Proof.
  apply (viOperSwapCase_region asciiIsLower asciiToUpper asciiToLower
           regionAB 1 3 1);
    [reflexivity | discriminate | reflexivity | lia
    | unfold regionAB, len; cbn; lia].
Defined.

(** X9 at work: "abc" killed from the c on. *)
Lemma viKillEol_truncates_witness :
  ∃ rl', viKillEol noSave (session abc 2) = Done rl'
    ∧ line rl' = [97; 98] ∧ pos rl' = 1.
Proof.
  destruct (viKillEol_truncates noSave (session abc 2))
    as (rl' & Heq & Hl & _ & Hp & _);
    [done | unfold session, abc, len; cbn; lia|].
  exists rl'. split; [exact Heq|]. split; [exact Hl|exact Hp].
Defined.

(** X10 at work: "abc" changed from the c on. *)
Lemma viChangeEol_truncates_witness :
  ∃ rl', viChangeEol noSave (session abc 2) = Done rl'
    ∧ line rl' = [97; 98] ∧ pos rl' = 2 ∧ main rl' = viins.
Proof.
  destruct (viChangeEol_truncates noSave (session abc 2))
    as (rl' & Heq & Hl & _ & Hp & _ & Hm & _);
    [done | unfold session, abc, len; cbn; lia|].
  exists rl'. split; [exact Heq|]. split; [exact Hl|].
  split; [exact Hp|exact Hm].
Defined.

(** X11 at work: "abc" with the cursor at its end, replaced by "xy" in the
    editor. *)
Lemma viEditCommandLine_cursor_witness :
  line (viEditCommandLine None editorXY id (session abc 3)) = [120; 121]
  ∧ pos (viEditCommandLine None editorXY id (session abc 3)) = 1.
Proof.
  destruct (viEditCommandLine_cursor None editorXY id (session abc 3)
              [120; 121] false) as [_ Hnew]; [reflexivity | cbn; lia|].
  destruct Hnew as (Hl & _ & _ & Hp);
    [reflexivity | discriminate | discriminate|].
  split; [exact Hl|]. apply Hp. unfold session, abc, len; cbn; lia.
Defined.

(** X12 at work: on the a of "ab)" the cursor goes to the parenthesis. *)
Lemma viMatchBracket_seeks_closing_witness :
  viMatchBracket (fun _ => 0) (session [97; 98; 41] 0)
  = Done (set_pos 2 (set_viUndoSkipAppend true (session [97; 98; 41] 0))).
Proof.
  destruct (viMatchBracket_seeks_closing (fun _ => 0)
              (session [97; 98; 41] 0) 97) as [_ Hfound];
    [cbn; lia | reflexivity | reflexivity|].
  apply (Hfound 2%nat 41); [cbn; lia | reflexivity | right; left; reflexivity|].
  intros i c' Hi Hc'. assert (i = 1%nat) as -> by (cbn in Hi; lia).
  injection Hc' as <-. unfold closing. lia.
Defined.

(** X14 at work: the selection "ab" of "xaby" replaced by stars. *)
Lemma viReplaceChars_region_witness :
  ∃ rl', viReplaceChars id (fun _ => id) ([42], false) selectionAB = Done rl'
    ∧ line rl' = [120; 42; 42; 121] ∧ main rl' = vicmd
    ∧ local rl' = nolocal ∧ mark rl' = -1 ∧ activeRegion rl' = false
    ∧ (main selectionAB = vicmd → pos rl' = 1).
Proof.
  apply (viReplaceChars_region id (fun _ => id) selectionAB 42 [] 1 3 1);
    [by left | reflexivity | lia | unfold selectionAB, len; cbn; lia].
Defined.

(** * Properties of the completion groups *)

(** ** Grouping the values *)

(** No string has both the prefix p ++ ERR and the value p ++ _: the
    test that [groupValues] makes for an error passed as a completion
    never succeeds. *)
Lemma error_test_fails (prefix value : string) :
  String.prefix (prefix +:+ "ERR") value
  && bool_decide (value = prefix +:+ "_") = false.
Proof.
  case_bool_decide as Hv; [|apply andb_false_r]. subst value.
  rewrite andb_true_r. induction prefix as [|a p IH]; [done|].
  change (String.prefix (String a (p +:+ "ERR")) (String a (p +:+ "_"))
          = false).
  cbn [String.prefix]. by destruct (ascii_dec a a).
Qed.

Lemma described_withDisplay (val : Candidate) :
  described (withDisplay val) = described val
  ∧ Description (withDisplay val) = Description val.
Proof.
  unfold withDisplay. by destruct (bool_decide (Display val = ""%string)).
Qed.

(** The loop of [groupValues] from any state. *)
Lemma groupValues_loop (FgRed : string)
    (stringInSlice : string → list string → bool) (prefix : string)
    (values : list Candidate) :
  ∀ (d : list string) (v n : list Candidate) (a : bool) (m : list string),
    ∃ a', fold_left (groupValues_round FgRed stringInSlice prefix) values
            (d, v, n, a, m)
          = (d ++ (Description <$> filter described (withDisplay <$> values)),
             v ++ filter described (withDisplay <$> values),
             n ++ filter (fun c => negb (described c)) (withDisplay <$> values),
             a', m)
      ∧ ((∀ s l, stringInSlice s l = true ↔ s ∈ l) →
         (a = true ↔ ¬ NoDup d) →
         (a' = true ↔
          ¬ NoDup (d ++ (Description <$>
                           filter described (withDisplay <$> values))))).
Proof.
  induction values as [|val values IH]; intros d v n a m.
  - exists a. cbn. rewrite !app_nil_r. done.
  - cbn [fold_left fmap list_fmap]. unfold groupValues_round at 2.
    fold (withDisplay val). rewrite error_test_fails.
    destruct (described_withDisplay val) as [Hd Hdesc].
    rewrite !filter_cons.
    destruct (described (withDisplay val)) eqn:Hdv; unfold described in Hdv;
      destruct (bool_decide (Description (withDisplay val) = ""%string));
      try discriminate.
    2:{ rewrite decide_False by (intros []). rewrite decide_True by exact I.
        destruct (IH d v (n ++ [withDisplay val]) a m) as (a' & -> & Ha').
        exists a'. rewrite <- !app_assoc. done. }
    + rewrite decide_True by exact I. rewrite decide_False by (intros []).
      destruct (IH (d ++ [Description (withDisplay val)])
                  (v ++ [withDisplay val]) n
                  (if stringInSlice (Description (withDisplay val)) d
                   then true else a) m) as (a' & -> & Ha').
      exists a'. cbn [fmap list_fmap]. rewrite <- !app_assoc.
      split; [done|]. intros Hin Ha. rewrite <- app_assoc in Ha'.
      apply Ha'; [done|].
      rewrite NoDup_app. specialize (Hin (Description (withDisplay val)) d).
      destruct (stringInSlice (Description (withDisplay val)) d).
      * split; [|done]. intros _ (_ & Hno & _).
        apply (Hno (Description (withDisplay val))); [by apply Hin|].
        apply list_elem_of_singleton. done.
      * rewrite Ha. split.
        -- intros Hd0 (Hnd & _). done.
        -- intros Hnot Hnd. apply Hnot. split; [done|].
           split; [|apply NoDup_singleton].
           intros x Hx Hx'. apply list_elem_of_singleton in Hx'. subst x.
           apply Hin in Hx. done.
Qed.

Lemma filter_undescribed (vs : list Candidate) :
  filter described vs = [] →
  filter (fun c => negb (described c)) vs = vs.
Proof.
  induction vs as [|c vs IH]; [done|]. rewrite !filter_cons.
  destruct (described c).
  - rewrite decide_True by exact I. done.
  - rewrite decide_False by (intros []). rewrite decide_True by exact I.
    intros H. by rewrite IH.
Qed.

Lemma descriptions_withDisplay (values : list Candidate) :
  Description <$> filter described (withDisplay <$> values)
  = Description <$> filter described values.
Proof.
  induction values as [|val values IH]; [done|].
  cbn [fmap list_fmap]. rewrite !filter_cons.
  destruct (described_withDisplay val) as [-> Hd].
  destruct (described val).
  - rewrite !decide_True by exact I. cbn [fmap list_fmap].
    by rewrite Hd, <- IH.
  - rewrite !decide_False by (intros []). exact IH.
Qed.

(** X15. groupValues loses no value, keeps the order and never adds a
    message. Every value gets a display string (its value when it had
    none). When at least one value has a description, the first result
    holds the values with a description and the second those without one,
    each in the order of the input; when none has, the first result holds
    all the values and the second is empty. The messages are those of the
    call for every input: the test for an error passed as a completion
    asks for a value that has the prefix p ++ ERR and is equal to p ++ _,
    which no string is. *)
Theorem groupValues_partition (FgRed : string)
    (stringInSlice : string → list string → bool) (ePrefix : string)
    (messages : list string) (values : list Candidate) :
  ∃ (vals noDescVals : list Candidate) (aliased : bool),
    groupValues FgRed stringInSlice ePrefix messages values
    = (vals, noDescVals, aliased, messages)
    ∧ (filter described (withDisplay <$> values) ≠ [] →
       vals = filter described (withDisplay <$> values)
       ∧ noDescVals
         = filter (fun c => negb (described c)) (withDisplay <$> values))
    ∧ (filter described (withDisplay <$> values) = [] →
       vals = withDisplay <$> values ∧ noDescVals = []).
Proof.
  unfold groupValues.
  match goal with
  | |- context [groupValues_round _ _ ?p] => set (prefix := p)
  end.
  destruct (groupValues_loop FgRed stringInSlice prefix values [] [] [] false
              messages) as (a' & -> & _).
  cbn [app]. set (vs := withDisplay <$> values).
  destruct (filter described vs) as [|c cs] eqn:Hf.
  - cbn. exists vs, [], a'. rewrite filter_undescribed by done.
    split; [done|]. split; [done|]. done.
  - unfold lenOf. cbn [length]. rewrite Nat2Z.inj_succ.
    rewrite (proj2 (Z.eqb_neq _ 0)) by lia.
    eexists _, _, a'. split; [reflexivity|]. split; [done|]. done.
Qed.

(** X16. groupValues reports aliases exactly when two values share a
    description: given that stringInSlice is membership in the slice, the
    flag it returns is set if and only if the descriptions of the values
    that have one are not pairwise distinct. *)
Theorem groupValues_aliased (FgRed : string)
    (stringInSlice : string → list string → bool) (ePrefix : string)
    (messages : list string) (values : list Candidate) :
  (∀ s l, stringInSlice s l = true ↔ s ∈ l) →
  (groupValues FgRed stringInSlice ePrefix messages values).1.2 = true
  ↔ ¬ NoDup (Description <$> filter described values).
Proof.
  intros Hin. unfold groupValues.
  match goal with
  | |- context [groupValues_round _ _ ?p] => set (prefix := p)
  end.
  destruct (groupValues_loop FgRed stringInSlice prefix values [] [] [] false
              messages) as (a' & -> & Ha').
  cbn [app] in *. rewrite descriptions_withDisplay in Ha'.
  specialize (Ha' Hin).
  assert (Hnil : false = true ↔ ¬ NoDup (@nil string)).
  { split; [done|]. intros H. exfalso. apply H. apply NoDup_nil_2. }
  specialize (Ha' Hnil).
  by destruct (lenOf _ =? 0).
Qed.

(** ** Justifying the groups *)

(** One round of the first loop of [justifyGroups]. *)
Lemma justifyGroups_scan_round (Pad : gmap string bool) (cg : list nat)
    (m : Z) (i : nat) (g : group) :
  justifyGroups_scan Pad (cg, m) (i, g)
  = if justifies Pad g
    then (cg ++ [i], if m <? tcMaxLength g then tcMaxLength g else m)
    else (cg, m).
Proof.
  unfold justifyGroups_scan, justifies.
  destruct (bool_decide (is_Some (Pad !! tag g))),
    (bool_decide (is_Some (Pad !! "*"%string))),
    (aliased g || (1 <? lenOf (columnsWidth g))); done.
Qed.

(** The first loop of [justifyGroups], from any state: it collects the
    justified groups and the largest of their lengths. *)
Lemma justifyGroups_scan_spec (Pad : gmap string bool) (gs : list group) :
  ∀ (k : nat) (cg : list nat) (m : Z),
    ∃ m', fold_left (justifyGroups_scan Pad)
            (imap (fun i g => ((k + i)%nat, g)) gs) (cg, m)
          = (cg ++ justifiedFrom Pad k gs, m')
      ∧ m ≤ m'
      ∧ (∀ g, g ∈ gs → justifies Pad g = true → tcMaxLength g ≤ m')
      ∧ (m' = m ∨ ∃ g, g ∈ gs ∧ justifies Pad g = true ∧ tcMaxLength g = m').
Proof.
  induction gs as [|g gs IH]; intros k cg m.
  - exists m. cbn. rewrite app_nil_r. split; [done|]. split; [lia|].
    split; [|by left]. intros g Hg. by apply elem_of_nil in Hg.
  - rewrite imap_cons. cbn [fold_left justifiedFrom].
    rewrite (imap_ext _ (fun i g => ((S k + i)%nat, g)))
      by (intros i x _; cbn; f_equal; lia).
    rewrite Nat.add_0_r, justifyGroups_scan_round.
    destruct (justifies Pad g) eqn:Hjg.
    + destruct (IH (S k) (cg ++ [k])
                  (if m <? tcMaxLength g then tcMaxLength g else m))
        as (m' & -> & Hle & Hall & Hmax).
      exists m'. rewrite <- app_assoc. split; [done|].
      assert (Hm : m ≤ m' ∧ tcMaxLength g ≤ m')
        by (destruct (Z.ltb_spec m (tcMaxLength g)); lia).
      split; [lia|]. split.
      * intros g' [->|Hg']%elem_of_cons Hj; [lia|by apply Hall].
      * destruct Hmax as [Hm'|(g' & Hg' & Hj & Htc)].
        -- destruct (Z.ltb_spec m (tcMaxLength g)); [|by left].
           right. exists g. split; [apply elem_of_cons; by left|done].
        -- right. exists g'. split; [by apply elem_of_cons; right|done].
    + destruct (IH (S k) cg m) as (m' & -> & Hle & Hall & Hmax).
      exists m'. split; [done|]. split; [done|]. split.
      * intros g' [->|Hg']%elem_of_cons Hj; [congruence|by apply Hall].
      * destruct Hmax as [->|(g' & Hg' & Hj & Htc)]; [by left|right].
        exists g'. split; [by apply elem_of_cons; right|done].
Qed.

Lemma elem_of_justifiedFrom (Pad : gmap string bool) (gs : list group) :
  ∀ (k j : nat),
    j ∈ justifiedFrom Pad k gs
    ↔ ∃ g, (k ≤ j)%nat ∧ gs !! (j - k)%nat = Some g ∧ justifies Pad g = true.
Proof.
  induction gs as [|g gs IH]; intros k j; cbn [justifiedFrom].
  - split; [by intros ?%elem_of_nil|]. by intros (g & _ & ? & _).
  - rewrite elem_of_app, IH. split.
    + intros [Hj|(g' & Hk & Hg' & Hj)].
      * destruct (justifies Pad g) eqn:Hg; [|by apply elem_of_nil in Hj].
        apply list_elem_of_singleton in Hj as ->. exists g.
        rewrite Nat.sub_diag. split; [lia|done].
      * exists g'. split; [lia|].
        replace (j - k)%nat with (S (j - S k)) by lia. done.
    + intros (g' & Hk & Hg' & Hj).
      destruct (decide (j = k)) as [->|Hne].
      * left. rewrite Nat.sub_diag in Hg'. injection Hg' as ->.
        rewrite Hj. by apply list_elem_of_singleton.
      * right. exists g'. split; [lia|].
        replace (j - k)%nat with (S (j - S k)) in Hg' by lia. done.
Qed.

(** The second loop of [justifyGroups]: an update through each pointer. *)
Lemma alter_each (f : group → group) (idxs : list nat) :
  (∀ g, f (f g) = f g) →
  ∀ (gs : list group) (j : nat),
    fold_left (fun gs i => alter f i gs) idxs gs !! j
    = if bool_decide (j ∈ idxs) then f <$> gs !! j else gs !! j.
Proof.
  intros Hf. induction idxs as [|i idxs IH]; intros gs j; [done|].
  cbn [fold_left]. rewrite IH.
  destruct (decide (j = i)) as [->|Hne].
  - rewrite list_lookup_alter, decide_True by done.
    rewrite (bool_decide_eq_true_2 (i ∈ i :: idxs)) by (by left).
    destruct (gs !! i) as [g|]; cbn; [|by case_bool_decide].
    rewrite Hf. by case_bool_decide.
  - rewrite list_lookup_alter, decide_False by done.
    case_bool_decide as Hin.
    + rewrite bool_decide_eq_true_2; [done|]. by right.
    + rewrite bool_decide_eq_false_2; [done|].
      by intros [?|?]%elem_of_cons.
Qed.

(** X17. justifyGroups gives one length to the groups it justifies
    (those whose tag, or "*", is a key of Pad, and that are neither aliased
    nor laid out in several columns): each of them gets the length M as
    its tcMaxLength, every other group is left as it is, and M is the
    largest tcMaxLength of the justified groups (0 when none is positive,
    or none is justified), so that no justified group gets a length below
    its own. *)
Theorem justifyGroups_levels (Pad : gmap string bool) (groups : list group) :
  ∃ M, justifyGroups Pad groups
       = (fun g => if justifies Pad g then set_tcMaxLength M g else g)
           <$> groups
    ∧ 0 ≤ M
    ∧ (∀ g, g ∈ groups → justifies Pad g = true → tcMaxLength g ≤ M)
    ∧ (M = 0
       ∨ ∃ g, g ∈ groups ∧ justifies Pad g = true ∧ tcMaxLength g = M).
Proof.
  unfold justifyGroups.
  change (imap pair groups) with (imap (fun i g => ((0 + i)%nat, g)) groups).
  destruct (justifyGroups_scan_spec Pad groups 0 [] 0)
    as (M & -> & Hle & Hall & Hmax).
  exists M. split; [|done]. cbn [app].
  apply list_eq. intros j.
  rewrite alter_each by done. rewrite list_lookup_fmap.
  case_bool_decide as Hin.
  - apply elem_of_justifiedFrom in Hin as (g & _ & Hg & Hj).
    rewrite Nat.sub_0_r in Hg. rewrite Hg. cbn. by rewrite Hj.
  - destruct (groups !! j) as [g|] eqn:Hg; [|done]. cbn.
    destruct (justifies Pad g) eqn:Hj; [|done].
    exfalso. apply Hin. apply elem_of_justifiedFrom. exists g.
    rewrite Nat.sub_0_r. split; [lia|done].
Qed.

(** ** Laying out a group *)

(** The columns that [setColumnsWidth] computes. *)
Lemma setColumnsWidth_columns (termWidth : Z) (vals : list Candidate)
    (compDisplayWidth : Z) (g : group) :
  0 < maxCellLength g → vals ≠ [] →
  ∃ g', setColumnsWidth termWidth vals compDisplayWidth g = Returned g'
    ∧ 1 ≤ maxX g' ≤ lenOf vals
    ∧ columnsWidth g'
      = replicate (Z.to_nat (maxX g')) (maxCellLength g)
    ∧ maxCellLength g' = maxCellLength g ∧ rows g' = rows g
    ∧ (list_ g = true ∨ compDisplayWidth = 0 → maxX g' = 1)
    ∧ (0 < compDisplayWidth → maxX g' ≤ compDisplayWidth)
    ∧ (maxCellLength g ≤ termWidth →
       maxX g' * maxCellLength g ≤ termWidth).
Proof.
  intros Hcell Hvals. unfold setColumnsWidth, quo.
  rewrite (proj2 (Z.eqb_neq (maxCellLength g) 0)) by lia.
  cbn [mbind attempt_bind]. set (q := Z.quot termWidth (maxCellLength g)).
  assert (Hq : maxCellLength g ≤ termWidth →
               1 ≤ q ∧ q * maxCellLength g ≤ termWidth).
  { intros Hfit. unfold q. rewrite Z.quot_div_nonneg by lia.
    pose proof (Z.mul_div_le termWidth (maxCellLength g) Hcell).
    pose proof (Z.div_le_lower_bound termWidth (maxCellLength g) 1 Hcell).
    split; lia. }
  assert (Hn : 1 ≤ lenOf vals)
    by (unfold lenOf; destruct vals; [done|cbn [length]; lia]).
  cbn [maxX set_maxX list_ maxCellLength].
  destruct (Z.ltb_spec q 1) as [Hq1|Hq1]; cbn [maxX set_maxX list_];
    [destruct (Z.ltb_spec (lenOf vals) 1) as [Hv|Hv]
    |destruct (Z.ltb_spec (lenOf vals) q) as [Hv|Hv]];
    cbn [maxX set_maxX list_];
    (destruct (list_ g || (compDisplayWidth =? 0)) eqn:Hl;
     cbn [maxX set_maxX list_];
     [|apply orb_false_iff in Hl as [Hl1 Hl2]; apply Z.eqb_neq in Hl2]);
    match goal with
    | |- context [(compDisplayWidth <? ?m) && _] =>
        destruct (Z.ltb_spec compDisplayWidth m);
        destruct (Z.ltb_spec 0 compDisplayWidth)
    end;
    cbn [andb maxX set_maxX maxCellLength];
    match goal with
    | |- context [?m <? 0] =>
        rewrite (proj2 (Z.ltb_ge m 0)) by lia
    end;
    (eexists; split; [reflexivity|]);
    cbn [maxX columnsWidth maxCellLength rows set_columnsWidth set_maxX];
    (split; [lia|]); (split; [done|]); (split; [done|]); (split; [done|]);
    (split; [try lia; intros [Hc|Hc]; try lia; congruence|]);
    (split; [lia|]); intros Hfit; specialize (Hq Hfit); nia.
Qed.

(** X18. setColumnsWidth, for a positive cell length and at least one
    value: the function returns, the number of columns maxX is at least 1
    and at most the number of values, it is 1 when the group is listed or
    the display width is 0, at most the display width when that is
    positive, and there is one column width per column, each the cell
    length. When a cell fits in the terminal, the columns fit together:
    maxX * maxCellLength <= terminal width. (With a cell length of 0 the
    division that comes first panics.) *)
Theorem setColumnsWidth_fits (termWidth : Z) (vals : list Candidate)
    (compDisplayWidth : Z) (g : group) :
  0 < maxCellLength g → vals ≠ [] →
  ∃ g', setColumnsWidth termWidth vals compDisplayWidth g = Returned g'
    ∧ 1 ≤ maxX g' ≤ lenOf vals
    ∧ columnsWidth g'
      = replicate (Z.to_nat (maxX g')) (maxCellLength g)
    ∧ maxCellLength g' = maxCellLength g ∧ rows g' = rows g
    ∧ (list_ g = true ∨ compDisplayWidth = 0 → maxX g' = 1)
    ∧ (0 < compDisplayWidth → maxX g' ≤ compDisplayWidth)
    ∧ (maxCellLength g ≤ termWidth →
       maxX g' * maxCellLength g ≤ termWidth).
Proof. apply setColumnsWidth_columns. Qed.

(** X24. The end of computeCells, setMaxCellLength followed by
    setColumnsWidth, with a configured display width between 1 and the
    terminal width less one and at least one value: the second call
    returns; the cell length is the configured width, or the terminal
    width when a cell was at least as long as the configured width, in
    which case there is a single column; and the columns fit in the
    terminal together, maxX * maxCellLength <= terminal width, with maxX
    at least 1 and at most the number of values and the configured
    width. *)
Theorem displayWidth_fits (termWidth configWidth : Z)
    (vals : list Candidate) (g : group) :
  0 < configWidth < termWidth → vals ≠ [] →
  ∃ g', setColumnsWidth termWidth vals
          (setMaxCellLength termWidth configWidth g).1
          (setMaxCellLength termWidth configWidth g).2 = Returned g'
    ∧ (maxCellLength g < configWidth → maxCellLength g' = configWidth)
    ∧ (configWidth ≤ maxCellLength g →
       maxCellLength g' = termWidth ∧ maxX g' = 1)
    ∧ 1 ≤ maxX g' ≤ lenOf vals ∧ maxX g' ≤ configWidth
    ∧ maxX g' * maxCellLength g' ≤ termWidth.
Proof.
  intros Hw Hvals. unfold setMaxCellLength.
  rewrite (proj2 (Z.ltb_ge termWidth configWidth)) by lia.
  rewrite (proj2 (Z.ltb_lt 0 configWidth)),
    (proj2 (Z.ltb_lt configWidth termWidth)) by lia. cbn [andb].
  destruct (Z.ltb_spec (maxCellLength g) configWidth) as [Hlt|Hge];
    cbn [fst snd].
  - destruct (setColumnsWidth_columns termWidth vals configWidth
                (set_maxCellLength configWidth g))
      as (g' & -> & HmaxX & _ & Hcell & _ & _ & Hcap & Hfit);
      [cbn; lia|done|].
    cbn [maxCellLength set_maxCellLength] in *.
    exists g'. split; [done|]. rewrite Hcell. split; [done|].
    split; [lia|]. split; [done|]. split; [apply Hcap; lia|].
    apply Hfit. lia.
  - destruct (setColumnsWidth_columns termWidth vals configWidth
                (set_maxCellLength termWidth g))
      as (g' & -> & HmaxX & _ & Hcell & _ & _ & Hcap & Hfit);
      [cbn; lia|done|].
    cbn [maxCellLength set_maxCellLength] in *.
    exists g'. split; [done|]. rewrite Hcell. split; [lia|].
    specialize (Hfit ltac:(lia)). specialize (Hcap ltac:(lia)).
    split; [intros _; split; [done|nia]|].
    split; [done|]. split; [done|]. done.
Qed.

Lemma at_last {A} (init : list A) (last v : A) :
  at_ (init ++ [last]) (lenOf (init ++ [last]) - 1) = Returned last
  ∧ store (init ++ [last]) (lenOf (init ++ [last]) - 1) v
    = Returned (init ++ [v]).
Proof.
  unfold at_, store, lenOf. rewrite length_app. cbn [length].
  replace (Z.of_nat (length init + 1) - 1) with (Z.of_nat (length init))
    by lia.
  rewrite (proj2 (Z.leb_le 0 _)) by lia. rewrite Nat2Z.id.
  rewrite lookup_app_r, Nat.sub_diag by lia. split; [done|].
  rewrite (proj2 (Z.ltb_lt _ _)) by lia. cbn [andb].
  rewrite insert_app_r_alt, Nat.sub_diag by lia. done.
Qed.

Lemma at_first {A} (a : A) (l : list A) (v : A) :
  at_ (a :: l) 0 = Returned a ∧ store (a :: l) 0 v = Returned (v :: l).
Proof. done. Qed.

(** One round of the loop of [makeMatrix] in a group that is not
    aliased: the value joins the grid. *)
Lemma makeMatrix_round_grid (termWidth : Z)
    (RuneCountInString : string → Z)
    (getColumnPad : list Z → Z → Z → list Z)
    (g : group) (val : Candidate) :
  aliased g = false → maxCellLength g ≠ 0 → columnsWidth g ≠ [] →
  grid (rowSize termWidth g) (rows g) →
  ∃ g', makeMatrix_round termWidth RuneCountInString getColumnPad g val
        = Returned g'
    ∧ aliased g' = false ∧ maxCellLength g' = maxCellLength g
    ∧ list_ g' = list_ g ∧ maxLength g' = maxLength g
    ∧ columnsWidth g' ≠ []
    ∧ concat (rows g') = concat (rows g) ++ [val]
    ∧ grid (rowSize termWidth g) (rows g').
Proof.
  intros Hal Hcell Hcw Hgrid. unfold makeMatrix_round. rewrite Hal.
  cbn [mbind attempt_bind negb]. unfold canFitInRow, quo.
  destruct (columnsWidth g) as [|w ws] eqn:Hws; [done|].
  assert (Hnew : ∀ rows',
    ∃ g', (let g := set_rows rows' g in
           first ← at_ (columnsWidth g) 0;
           if first <? RuneCountInString (Display val) + 1
           then cw ← store (columnsWidth g) 0
                       (RuneCountInString (Display val) + 1);
                Returned (set_columnsWidth cw g)
           else Returned g) = Returned g'
      ∧ aliased g' = false ∧ maxCellLength g' = maxCellLength g
      ∧ list_ g' = list_ g ∧ maxLength g' = maxLength g
      ∧ columnsWidth g' ≠ [] ∧ rows g' = rows').
  { intros rows'. cbn zeta. cbn [columnsWidth set_rows]. rewrite Hws.
    destruct (at_first w ws (RuneCountInString (Display val) + 1))
      as [-> ->]. cbn [mbind attempt_bind].
    destruct (w <? RuneCountInString (Display val) + 1);
      eexists; (split; [reflexivity|]); cbn; rewrite ?Hws; done. }
  destruct Hgrid as [Hrows|(full & last & Hrows & Hfull & Hlast)].
  - rewrite Hrows. cbn [lenOf length Z.of_nat Z.eqb mbind attempt_bind andb].
    destruct (Hnew [[val]]) as (g' & Hg' & Ha & Hm & Hl & Hx & Hc & Hr).
    exists g'. split; [exact Hg'|].
    rewrite Hr. do 5 (split; [done|]). split; [done|].
    right. exists [], [val]. split; [done|]. split; [done|].
    unfold rowSize, lenOf. cbn. destruct (list_ g); lia.
  - rewrite Hrows.
    assert ((lenOf (full ++ [last]) =? 0) = false) as ->.
    { apply Z.eqb_neq. unfold lenOf. rewrite length_app. cbn. lia. }
    rewrite (proj2 (Z.eqb_neq (maxCellLength g) 0)) by done.
    cbn [mbind attempt_bind].
    destruct (at_last full last (last ++ [val])) as [-> Hstore].
    cbn [mbind attempt_bind].
    set (q := Z.quot termWidth (maxCellLength g)) in *.
    destruct (Z.ltb_spec (q - 1) (lenOf last)) as [Hfit|Hfit];
      cbn [mbind attempt_bind andb].
    + destruct (Hnew ((full ++ [last]) ++ [[val]]))
        as (g' & Hg' & Ha & Hm & Hl & Hx & Hc & Hr).
      exists g'. split; [exact Hg'|]. rewrite Hr.
      do 5 (split; [done|]). split.
      * rewrite !concat_app. cbn. by rewrite !app_nil_r.
      * right. exists (full ++ [last]), [val]. split; [done|]. split.
        -- apply Forall_app. split; [done|]. apply Forall_singleton.
           unfold rowSize in *. fold q in Hlast |- *.
           destruct (list_ g); lia.
        -- unfold rowSize, lenOf. cbn. destruct (list_ g); lia.
    + destruct (list_ g) eqn:Hlist; cbn [negb mbind attempt_bind].
      * destruct (Hnew ((full ++ [last]) ++ [[val]]))
          as (g' & Hg' & Ha & Hm & Hl & Hx & Hc & Hr).
        exists g'. split; [exact Hg'|]. rewrite Hr.
        do 5 (split; [done|]). split.
        -- rewrite !concat_app. cbn. by rewrite !app_nil_r.
        -- right. exists (full ++ [last]), [val]. split; [done|].
           unfold rowSize in *. rewrite Hlist in *. split.
           ++ apply Forall_app. split; [done|]. apply Forall_singleton. lia.
           ++ unfold lenOf. cbn. lia.
      * rewrite Hstore. cbn [mbind attempt_bind].
        eexists. split; [reflexivity|]. cbn. rewrite Hws.
        do 5 (split; [done|]). split.
        -- rewrite !concat_app. cbn. by rewrite !app_nil_r, app_assoc.
        -- right. exists full, (last ++ [val]). split; [done|].
           split; [done|]. unfold rowSize in *. rewrite Hlist in *.
           fold q in Hlast |- *. unfold lenOf in *. rewrite length_app.
           cbn [length]. lia.
Qed.

(** The loop of [makeMatrix] in a group that is not aliased. *)
Lemma makeMatrix_loop_grid (termWidth : Z)
    (RuneCountInString : string → Z)
    (getColumnPad : list Z → Z → Z → list Z) (vals : list Candidate) :
  ∀ g : group,
    aliased g = false → maxCellLength g ≠ 0 → columnsWidth g ≠ [] →
    grid (rowSize termWidth g) (rows g) →
    ∃ g', forEach
            (makeMatrix_round termWidth RuneCountInString getColumnPad)
            vals g = Returned g'
      ∧ aliased g' = false ∧ maxLength g' = maxLength g
      ∧ concat (rows g') = concat (rows g) ++ vals
      ∧ grid (rowSize termWidth g) (rows g').
Proof.
  induction vals as [|val vals IH]; intros g Hal Hcell Hcw Hgrid.
  - exists g. cbn. by rewrite app_nil_r.
  - cbn [forEach].
    destruct (makeMatrix_round_grid termWidth RuneCountInString getColumnPad
                g val Hal Hcell Hcw Hgrid)
      as (g1 & -> & Hal1 & Hcell1 & Hlist1 & Hmax1 & Hcw1 & Hcat1 & Hgrid1).
    cbn [mbind attempt_bind].
    assert (Hsize : rowSize termWidth g1 = rowSize termWidth g)
      by (unfold rowSize; by rewrite Hcell1, Hlist1).
    destruct (IH g1) as (g' & -> & Hal' & Hmax' & Hcat' & Hgrid');
      [done|congruence|done|by rewrite Hsize|].
    exists g'. split; [done|]. split; [done|]. split; [congruence|].
    split; [|by rewrite <- Hsize].
    rewrite Hcat', Hcat1, <- app_assoc. done.
Qed.

(** X19. makeMatrix on a fresh group (no rows yet) that is not aliased,
    with a cell length that is not 0 and at least one column width: the
    function returns; the rows, read one after the other, are the values
    in their order, none lost and none added; every row but the last
    holds exactly n candidates and the last between 1 and n, where n is 1
    for a list and else the number of cells that fit in the terminal (at
    least 1); maxY is the number of rows, capped by a positive
    maxLength. *)
Theorem makeMatrix_grid (termWidth : Z) (RuneCountInString : string → Z)
    (getColumnPad : list Z → Z → Z → list Z) (sum : list Z → Z)
    (vals : list Candidate) (g : group) :
  aliased g = false → rows g = [] →
  maxCellLength g ≠ 0 → columnsWidth g ≠ [] →
  ∃ g', makeMatrix termWidth RuneCountInString getColumnPad sum vals g
        = Returned g'
    ∧ concat (rows g') = vals
    ∧ grid (rowSize termWidth g) (rows g')
    ∧ (maxLength g = 0 → maxY g' = lenOf (rows g'))
    ∧ (0 < maxLength g → maxY g' = Z.min (maxLength g) (lenOf (rows g'))).
Proof.
  intros Hal Hrows Hcell Hcw. unfold makeMatrix.
  destruct (makeMatrix_loop_grid termWidth RuneCountInString getColumnPad
              vals g Hal Hcell Hcw)
    as (g1 & -> & Hal1 & Hmax1 & Hcat1 & Hgrid1);
    [left; exact Hrows|].
  rewrite Hrows in Hcat1. cbn [concat app] in Hcat1.
  cbn [mbind attempt_bind]. rewrite Hal1.
  cbn [maxLength maxY rows set_maxY]. rewrite Hmax1.
  eexists. split; [reflexivity|].
  destruct (Z.ltb_spec (maxLength g) (lenOf (rows g1)));
    destruct (Z.eqb_spec (maxLength g) 0); cbn [andb negb rows maxY set_maxY];
    (split; [done|]); (split; [done|]); split; intros; lia.
Qed.

(** ** Moving the selector *)

Lemma row_at (rows : list (list Candidate)) (i : Z) :
  Forall (fun row => row ≠ []) rows → 0 ≤ i < lenOf rows →
  ∃ row, at_ rows i = Returned row
         ∧ rows !! Z.to_nat i = Some row ∧ 1 ≤ lenOf row.
Proof.
  intros Hrows Hi. unfold at_, lenOf in *.
  rewrite (proj2 (Z.leb_le 0 i)) by lia.
  destruct (lookup_lt_is_Some_2 rows (Z.to_nat i)) as [row Hrow]; [lia|].
  exists row. rewrite Hrow. split; [done|]. split; [done|].
  rewrite Forall_forall in Hrows.
  assert (row ≠ []) by (apply Hrows; by eapply list_elem_of_lookup_2).
  destruct row; [done|]. cbn [length]. lia.
Qed.

(** The fields of a group whose record is known. *)
Ltac group_fields :=
  cbn [andb orb negb posX posY maxX maxY rows aliased columnsWidth
       set_posX set_posY mbind attempt_bind] in *.

(** The row that an index expression of the goal reads. *)
Ltac read_row Hrows :=
  match goal with
  | |- context [at_ ?rs ?i] =>
      let row := fresh "row" in
      let Hat := fresh "Hat" in
      let Hrow := fresh "Hrow" in
      let Hlen := fresh "Hlen" in
      destruct (row_at rs i Hrows) as (row & Hat & Hrow & Hlen);
      [lia|rewrite Hat]
  end.

(** Every test of the goal decided, one after the other. *)
Ltac decide_tests Hrows :=
  repeat (group_fields; try lia;
    first
      [ match goal with
        | |- context [?a <? ?b] => destruct (Z.ltb_spec a b); try lia
        | |- context [?a =? ?b] => destruct (Z.eqb_spec a b); try lia
        end
      | read_row Hrows ]); group_fields.

(** The selector is on a cell of the row at its line. *)
Ltac on_row Hrows :=
  first
    [ eexists; (split; [|split; [eassumption|]]); cbn; lia
    | match goal with
      | |- ∃ row, _ ∧ ?rs !! Z.to_nat ?i = Some row ∧ _ =>
          let row := fresh "row" in
          let Hat := fresh "Hat" in
          let Hrow := fresh "Hrow" in
          let Hlen := fresh "Hlen" in
          destruct (row_at rs i Hrows) as (row & Hat & Hrow & Hlen);
          [lia|]; exists row; split; [lia|split; [exact Hrow|lia]]
      end ].

Ltac arrived Hrows :=
  eexists _, _, _; split; [reflexivity|]; split; [by repeat split|];
  cbn; intros Hd; first [discriminate | split; [done|on_row Hrows]].

(** A move by one cell in a laid-out group, from a cell or from the
    unused position: the call returns, only the position changes, and a
    move that is not done leaves the selector on a cell. *)
Lemma moveSelector_cell (fuel : nat) (x y : Z) (g : group) :
  laidOut g → onCell g ∨ unused g → unitStep x y →
  ∃ g' done next,
    moveSelector fuel x y g = Some (Returned (g', done, next))
    ∧ sameLayout g g'
    ∧ (done = false → next = false ∧ onCell g').
Proof.
  intros (Hal & Hrows & HmaxY) Hsel Hstep.
  unfold onCell, unused, sameLayout in *.
  destruct g as [tg rs cw li al pe ml tc mc X Y mX mY].
  cbn in Hal, Hrows, HmaxY, Hsel. subst al.
  unfold moveSelector, moveSelector_back. cbn zeta.
  destruct Hsel as [(row & Hy & Hrow & Hx)|[-> ->]];
    destruct Hstep as [[-> ->]|[[-> ->]|[[-> ->]|[-> ->]]]].
  all: decide_tests Hrows.
  all: arrived Hrows.
Qed.

(** On a cell, [selected] reads the candidate of that cell. *)
Lemma selected_on_cell (Strip : string → string) (g : group) :
  onCell g →
  ∃ c, c ∈ concat (rows g)
    ∧ selected Strip g
      = Returned (if negb (preserveEscapes g)
                  then mkCandidate (Strip (Value c)) (Display c)
                         (Description c)
                  else c).
Proof.
  intros (row & Hy & Hrow & Hx). unfold selected, at_.
  rewrite (proj2 (Z.eqb_neq (posY g) (-1))),
    (proj2 (Z.eqb_neq (posX g) (-1))) by lia. cbn [orb].
  rewrite (proj2 (Z.leb_le 0 (posY g))) by lia. rewrite Hrow.
  cbn [mbind attempt_bind].
  rewrite (proj2 (Z.leb_le 0 (posX g))) by lia.
  destruct (lookup_lt_is_Some_2 row (Z.to_nat (posX g))) as [c Hc];
    [unfold lenOf in Hx; lia|].
  rewrite Hc. cbn [mbind attempt_bind]. exists c. split; [|done].
  apply list_elem_of_In, in_concat. exists row.
  split; apply list_elem_of_In; by eapply list_elem_of_lookup_2.
Qed.

(** X20. A move of the selector by one cell (right, left, down or up)
    in a group that is laid out (not aliased, no empty row, between 1 and
    all of its rows shown), from a cell of the rows shown or from the
    unused position (-1, -1): the call returns for every fuel, without a
    panic; only the position changes; and when it does not report the
    group as done, the selector is on a cell of the rows shown, so that
    selected returns a candidate of the group. *)
Theorem moveSelector_stays_on_cell (Strip : string → string) (fuel : nat)
    (x y : Z) (g : group) :
  laidOut g → onCell g ∨ unused g → unitStep x y →
  ∃ g' done next,
    moveSelector fuel x y g = Some (Returned (g', done, next))
    ∧ sameLayout g g'
    ∧ (next = true → done = true)
    ∧ (done = false →
       onCell g'
       ∧ ∃ c, c ∈ concat (rows g)
           ∧ selected Strip g'
             = Returned (if negb (preserveEscapes g')
                         then mkCandidate (Strip (Value c)) (Display c)
                                (Description c)
                         else c)).
Proof.
  intros Hlaid Hsel Hstep.
  destruct (moveSelector_cell fuel x y g Hlaid Hsel Hstep)
    as (g' & done & next & Hmove & Hsame & Hcell).
  exists g', done, next. split; [done|]. split; [done|]. split.
  - intros ->. destruct done; [done|]. by destruct (Hcell eq_refl).
  - intros ->. destruct (Hcell eq_refl) as [_ Hon]. split; [done|].
    destruct (selected_on_cell Strip g' Hon) as (c & Hc & Hs).
    exists c. split; [|done]. destruct Hsame as (<- & _). done.
Qed.

(** X21. The ends of a laid-out group. Entered forwards (right or
    down), an unused group selects its first cell; entered backwards (left
    or up) it reports done on the first cell at once. A move left or up
    out of the first cell reports the group as done, and not next; with
    all rows shown, lastCell puts the selector on the last cell of the
    last row, and a move right from there reports done and next, with the
    selector back in column 0. *)
Theorem moveSelector_ends (fuel : nat) (g : group) :
  laidOut g →
  (unused g →
   moveSelector fuel 1 0 g = Some (Returned (firstCell g, false, false))
   ∧ moveSelector fuel 0 1 g = Some (Returned (firstCell g, false, false))
   ∧ moveSelector fuel (-1) 0 g = Some (Returned (firstCell g, true, false))
   ∧ moveSelector fuel 0 (-1) g = Some (Returned (firstCell g, true, false)))
  ∧ moveSelector fuel (-1) 0 (firstCell g)
    = Some (Returned (firstCell g, true, false))
  ∧ moveSelector fuel 0 (-1) (firstCell g)
    = Some (Returned (firstCell g, true, false))
  ∧ (maxY g = lenOf (rows g) →
     ∃ gl g', lastCell fuel g = Some (Returned gl)
       ∧ onCell gl ∧ posY gl = lenOf (rows g) - 1
       ∧ moveSelector fuel 1 0 gl = Some (Returned (g', true, true))
       ∧ posY g' = posY gl ∧ posX g' = 0).
Proof.
  intros (Hal & Hrows & HmaxY).
  destruct g as [tg rs cw li al pe ml tc mc X Y mX mY].
  cbn in Hal, Hrows, HmaxY. subst al.
  split; [|split; [|split]].
  - intros [HX HY]. cbn in HX, HY. subst X Y.
    unfold moveSelector, moveSelector_back, firstCell. cbn zeta.
    repeat split; decide_tests Hrows; reflexivity.
  - unfold moveSelector, moveSelector_back, firstCell. cbn zeta.
    decide_tests Hrows; reflexivity.
  - unfold moveSelector, moveSelector_back, firstCell. cbn zeta.
    decide_tests Hrows; reflexivity.
  - cbn [maxY rows]. intros ->. unfold lastCell. cbn zeta. group_fields.
    destruct (row_at rs (lenOf rs - 1) Hrows) as (row & Hat & Hrow & Hlen);
      [lia|].
    rewrite Hat. cbn [mbind attempt_bind].
    eexists _, _. split; [reflexivity|]. split.
    { exists row. cbn. split; [lia|]. split; [done|lia]. }
    split; [done|].
    unfold moveSelector, moveSelector_back. cbn zeta. group_fields.
    rewrite !Z.add_0_r. 
    rewrite (proj2 (Z.eqb_neq (lenOf row - 1) (-1))) by lia. group_fields.
    rewrite (proj2 (Z.ltb_ge (lenOf row - 1 + 1) 0)) by lia. group_fields.
    rewrite (proj2 (Z.ltb_ge (lenOf rs - 1) 0)) by lia. group_fields.
    rewrite (proj2 (Z.ltb_ge (lenOf rs - 1) (lenOf rs - 1))) by lia.
    group_fields. rewrite Hat.
    rewrite (proj2 (Z.ltb_lt (lenOf row - 1) (lenOf row - 1 + 1))) by lia.
    rewrite (proj2 (Z.ltb_ge (lenOf rs - 1) (lenOf rs - 1))) by lia.
    split; [reflexivity|]. done.
Qed.


(** ** Writing a group *)

Lemma writeComps_loop_counts (writeRow : group → Z → string * group)
    (left : nat) :
  (∀ g i, maxY (writeRow g i).2 = maxY g) →
  ∀ (g : group) (comp : string) (columns rows : Z),
    (writeComps_loop writeRow left g comp columns rows).1.2
    = match left with
      | O => rows
      | S _ => Z.min (rows + Z.of_nat left) (Z.max (rows + 1) (maxY g + 1))
      end.
Proof.
  intros Hkeep. induction left as [|left IH]; intros g comp columns rows;
    [done|].
  cbn [writeComps_loop]. specialize (Hkeep g columns).
  destruct (writeRow g columns) as [row g1]. cbn [snd] in Hkeep.
  rewrite Hkeep.
  destruct (Z.ltb_spec (maxY g) (rows + 1)); [cbn; lia|].
  rewrite IH. destruct left; [cbn; lia|]. rewrite Hkeep. lia.
Qed.

(** X22. writeComps counts the lines it writes. Given a writeRow that
    leaves maxY alone: a group without rows writes nothing and leaves the
    counter usedY as it is; otherwise usedY grows by one line for a tag
    that is not empty, plus the number of rows written, which is the
    number of rows of the group capped at maxY + 1 (the loop stops once
    more than maxY rows are written), and one at least. *)
Theorem writeComps_counts (header : string → string)
    (writeRow : group → Z → string * group) (g : group) (usedY : Z) :
  (∀ g i, maxY (writeRow g i).2 = maxY g) →
  (rows g = [] → writeComps header writeRow g usedY = (""%string, usedY, g))
  ∧ (rows g ≠ [] →
     (writeComps header writeRow g usedY).1.2
     = usedY + (if bool_decide (tag g = ""%string) then 0 else 1)
       + Z.min (lenOf (rows g)) (Z.max 1 (maxY g + 1))).
Proof.
  intros Hkeep. unfold writeComps. split.
  - intros ->. done.
  - intros Hrows.
    assert (Hlen : 1 ≤ lenOf (rows g))
      by (unfold lenOf; destruct (rows g); [done|cbn [length]; lia]).
    rewrite (proj2 (Z.eqb_neq (lenOf (rows g)) 0)) by lia.
    pose proof (writeComps_loop_counts writeRow (length (rows g)) Hkeep g)
      as Hloop.
    destruct (bool_decide (tag g = ""%string)); cbn [negb].
    + specialize (Hloop ""%string 0 0).
      destruct (writeComps_loop writeRow (length (rows g)) g "" 0 0)
        as [[comp rows'] g']. cbn [fst snd] in *. rewrite Hloop.
      unfold lenOf in *. destruct (length (rows g)); lia.
    + specialize (Hloop (header (tag g)) 0 0).
      destruct (writeComps_loop writeRow (length (rows g)) g (header (tag g))
                  0 0) as [[comp rows'] g']. cbn [fst snd] in *.
      rewrite Hloop. unfold lenOf in *. destruct (length (rows g)); lia.
Qed.

(** ** The width of the first column *)

Lemma checkDisplays_loop (RuneCountInString : string → Z)
    (vals : list Candidate) :
  ∀ (g : group) (w : Z) (ws : list Z),
    columnsWidth g = w :: ws →
    ∃ w', forEach
            (fun g val =>
               let valLen := RuneCountInString (Display val) in
               first ← at_ (columnsWidth g) 0;
               if first <? valLen
               then cw ← store (columnsWidth g) 0 valLen;
                    Returned (set_columnsWidth cw g)
               else Returned g)
            vals g = Returned (set_columnsWidth (w' :: ws) g)
      ∧ w ≤ w'
      ∧ (∀ v, v ∈ vals → RuneCountInString (Display v) ≤ w')
      ∧ (w' = w ∨ ∃ v, v ∈ vals ∧ w' = RuneCountInString (Display v)).
Proof.
  match goal with |- context [forEach ?b] => set (body := b) end.
  assert (Hbody : ∀ g val,
    body g val
    = (first ← at_ (columnsWidth g) 0;
       if first <? RuneCountInString (Display val)
       then cw ← store (columnsWidth g) 0 (RuneCountInString (Display val));
            Returned (set_columnsWidth cw g)
       else Returned g)) by reflexivity.
  clearbody body.
  induction vals as [|val vals IH]; intros g w ws Hcw.
  - exists w. cbn [forEach]. rewrite <- Hcw. split; [by destruct g|].
    split; [lia|]. split; [by intros v ?%elem_of_nil|by left].
  - cbn [forEach]. rewrite Hbody, Hcw.
    destruct (at_first w ws (RuneCountInString (Display val))) as [-> ->].
    cbn [mbind attempt_bind].
    destruct (Z.ltb_spec w (RuneCountInString (Display val)));
      cbn [mbind attempt_bind].
    + destruct (IH (set_columnsWidth
                      (RuneCountInString (Display val) :: ws) g)
                  (RuneCountInString (Display val)) ws eq_refl)
        as (w' & -> & Hle & Hall & Hmax).
      exists w'. split; [by destruct g|]. split; [lia|]. split.
      * intros v [->|Hv]%elem_of_cons; [lia|by apply Hall].
      * right. destruct Hmax as [->|(v & Hv & ->)].
        -- exists val. split; [by left|done].
        -- exists v. split; [by right|done].
    + destruct (IH g w ws Hcw) as (w' & -> & Hle & Hall & Hmax).
      exists w'. split; [done|]. split; [lia|]. split.
      * intros v [->|Hv]%elem_of_cons; [lia|by apply Hall].
      * destruct Hmax as [->|(v & Hv & ->)]; [by left|right].
        exists v. split; [by right|done].
Qed.

(** X23. checkDisplays on a group that is not aliased and has a first
    column width w: the function returns and only that width changes.
    Without values it becomes the terminal width less one. With values it
    becomes the largest of w and the rune counts of the displays, so that
    no display is wider than the first column. *)
Theorem checkDisplays_widest (termWidth : Z)
    (RuneCountInString : string → Z) (vals : list Candidate) (g : group)
    (w : Z) (ws : list Z) :
  aliased g = false → columnsWidth g = w :: ws →
  ∃ w', checkDisplays termWidth RuneCountInString vals g
        = Returned (set_columnsWidth (w' :: ws) g)
    ∧ (vals = [] → w' = termWidth - 1)
    ∧ (vals ≠ [] →
       w ≤ w'
       ∧ (∀ v, v ∈ vals → RuneCountInString (Display v) ≤ w')
       ∧ (w' = w ∨ ∃ v, v ∈ vals ∧ w' = RuneCountInString (Display v))).
Proof.
  intros Hal Hcw. unfold checkDisplays. rewrite Hal.
  destruct vals as [|val vals].
  - cbn. rewrite Hcw. cbn. exists (termWidth - 1). split; [by destruct g|].
    split; [done|]. done.
  - change (lenOf (val :: vals) =? 0) with false.
    destruct (checkDisplays_loop RuneCountInString (val :: vals) g w ws Hcw)
      as (w' & Heq & Hle & Hall & Hmax).
    exists w'. split; [exact Heq|]. split; [done|]. intros _. done.
Qed.

(** ** Concrete groups: the properties at work *)

(** X16 at work: two values with the same description are aliases. *)
Lemma groupValues_aliased_witness :
  (groupValues "" (fun s l => bool_decide (s ∈ l)) "" []
     [mkCandidate "ls" "" "list"; mkCandidate "dir" "" "list"]).1.2 = true.
Proof.
  apply (groupValues_aliased "" (fun s l => bool_decide (s ∈ l)) "" []
           [mkCandidate "ls" "" "list"; mkCandidate "dir" "" "list"]).
  - intros s l. apply bool_decide_eq_true.
  - intros Hnd. apply NoDup_cons in Hnd as [Hnotin _]. apply Hnotin.
    by left.
Defined.

(** X18 at work: three values of 20 cells in a terminal of 80. *)
Lemma setColumnsWidth_fits_witness :
  ∃ g', setColumnsWidth 80 fruits (-1)
          (set_maxCellLength 20 (freshGroup "" false)) = Returned g'
    ∧ 1 ≤ maxX g' ≤ 3 ∧ maxX g' * 20 ≤ 80.
Proof.
  destruct (setColumnsWidth_fits 80 fruits (-1)
              (set_maxCellLength 20 (freshGroup "" false)))
    as (g' & Heq & HmaxX & _ & _ & _ & _ & _ & Hfit);
    [cbn; lia | discriminate|].
  exists g'. split; [exact Heq|]. split; [exact HmaxX|].
  apply Hfit. cbn. lia.
Defined.

(** X24 at work: a display width of 30 in a terminal of 80. *)
Lemma displayWidth_fits_witness :
  ∃ g', setColumnsWidth 80 fruits
          (setMaxCellLength 80 30
             (set_maxCellLength 20 (freshGroup "" false))).1
          (setMaxCellLength 80 30
             (set_maxCellLength 20 (freshGroup "" false))).2 = Returned g'
    ∧ maxCellLength g' = 30 ∧ maxX g' * maxCellLength g' ≤ 80.
Proof.
  destruct (displayWidth_fits 80 30 fruits
              (set_maxCellLength 20 (freshGroup "" false)))
    as (g' & Heq & Hcell & _ & _ & _ & Hfit); [lia | discriminate|].
  exists g'. split; [exact Heq|]. split; [|exact Hfit].
  apply Hcell. cbn. lia.
Defined.

(** X19 at work: the fruits in a terminal of 80 with cells of 40. *)
Lemma makeMatrix_grid_witness :
  ∃ g', makeMatrix 80 byteCount (fun cw _ _ => cw) (fun _ => 0) fruits
          (set_maxCellLength 40 (freshGroup "" false)) = Returned g'
    ∧ concat (rows g') = fruits
    ∧ grid 2 (rows g') ∧ maxY g' = lenOf (rows g').
Proof.
  destruct (makeMatrix_grid 80 byteCount (fun cw _ _ => cw) (fun _ => 0)
              fruits (set_maxCellLength 40 (freshGroup "" false)))
    as (g' & Heq & Hcat & Hgrid & Hall & _);
    [reflexivity | reflexivity | discriminate | discriminate|].
  exists g'. split; [exact Heq|]. split; [exact Hcat|].
  split; [exact Hgrid|]. apply Hall. reflexivity.
Defined.

Lemma fruitGrid_laidOut : laidOut fruitGrid.
Proof.
  split; [reflexivity|]. split; [repeat constructor; discriminate|].
  unfold fruitGrid, lenOf. cbn. lia.
Defined.

(** X20 at work: a move right from the banana, the last cell of the first
    row. *)
Lemma moveSelector_stays_on_cell_witness :
  ∃ g' done next,
    moveSelector 0 1 0 fruitGrid = Some (Returned (g', done, next))
    ∧ sameLayout fruitGrid g' ∧ (done = false → onCell g').
Proof.
  destruct (moveSelector_stays_on_cell id 0%nat 1 0 fruitGrid
              fruitGrid_laidOut)
    as (g' & done & next & Heq & Hsame & _ & Hon).
  - left. exists [apple; banana]. split; [cbn; lia|].
    split; [reflexivity|]. unfold lenOf. cbn. lia.
  - left. split; reflexivity.
  - exists g', done, next. split; [exact Heq|]. split; [exact Hsame|].
    intros Hd. exact (proj1 (Hon Hd)).
Defined.

(** X21 at work: a move left out of the first cell of the fruits. *)
Lemma moveSelector_ends_witness :
  moveSelector 0 (-1) 0 (firstCell fruitGrid)
  = Some (Returned (firstCell fruitGrid, true, false)).
Proof.
  destruct (moveSelector_ends 0%nat fruitGrid fruitGrid_laidOut)
    as (_ & Hleft & _).
  exact Hleft.
Defined.

(** X22 at work: a list of three rows with maxY = 1 writes its tag and
    two rows. *)
Lemma writeComps_counts_witness :
  (writeComps id (fun g _ => (""%string, g)) fruitList 0).1.2
  = 0 + (if bool_decide (tag fruitList = ""%string) then 0 else 1)
    + Z.min (lenOf (rows fruitList)) (Z.max 1 (maxY fruitList + 1)).
Proof.
  destruct (writeComps_counts id (fun g _ => (""%string, g)) fruitList 0)
    as [_ Hrows]; [reflexivity|].
  apply Hrows. discriminate.
Defined.

(** X23 at work: the first column of a fresh group is as wide as the
    longest fruit. *)
Lemma checkDisplays_widest_witness :
  ∃ w', checkDisplays 80 byteCount fruits (freshGroup "" false)
        = Returned (set_columnsWidth [w'] (freshGroup "" false))
    ∧ ∀ v, v ∈ fruits → byteCount (Display v) ≤ w'.
Proof.
  destruct (checkDisplays_widest 80 byteCount fruits (freshGroup "" false)
              0 []) as (w' & Heq & _ & Hvals); [reflexivity | reflexivity|].
  exists w'. split; [exact Heq|].
  destruct Hvals as (_ & Hall & _); [discriminate|]. exact Hall.
Defined.
